(** * The IKEv2 message container of charon: [encoding/message.c]

    A shallow embedding of [message.c] (rule table, rule lookup, accessors,
    [add_payload], [generate], [parse_header], [parse_body], [verify], the
    encrypt and the decrypt pass) and the properties of it that the
    specification states.

    The message owns its payloads ([add_payload] hands the payload over, the
    caller keeps no right on it), so the payload list is modelled as a list of
    payload values and [set_next_type] on a member of the list as an update
    of that member. *)

From Stdlib Require Import List ZArith Bool Lia Permutation.
From Stdlib Require Import Strings.Byte.
Import ListNotations.
Local Open Scope Z_scope.

(** ** Enumerations *)

(** Modelled from the spec: [status_t] is declared in [types.h], which is not
    among the sources; these are the error kinds of section 7 of the
    specification, all of which [message.c] names except [PARSE_ERROR]. *)
Inductive status_t : Type :=
  | SUCCESS
  | FAILED
  | INVALID_STATE
  | NOT_FOUND
  | PARSE_ERROR
  | VERIFY_ERROR
  | NOT_SUPPORTED.

(** Modelled from the spec: [exchange_type_t] is declared in [ike_header.h],
    which is not among the sources (section 3, "Exchange type"). *)
Inductive exchange_type_t : Type :=
  | IKE_SA_INIT
  | IKE_AUTH
  | CREATE_CHILD_SA
  | INFORMATIONAL
  | EXCHANGE_TYPE_UNDEFINED.

(** Modelled from the spec: [payload_type_t] is declared in [payload.h], which
    is not among the sources (section 3, "Payload type"); the constructors are
    the payload types that [message.c] names. *)
Inductive payload_type_t : Type :=
  | NO_PAYLOAD
  | SECURITY_ASSOCIATION
  | KEY_EXCHANGE
  | ID_INITIATOR
  | ID_RESPONDER
  | CERTIFICATE
  | CERTIFICATE_REQUEST
  | AUTHENTICATION
  | NONCE
  | TRAFFIC_SELECTOR_INITIATOR
  | TRAFFIC_SELECTOR_RESPONDER
  | ENCRYPTED
  | HEADER.

Definition status_eq_dec (a b : status_t) : {a = b} + {a <> b}.
Proof. decide equality. Defined.

Definition exchange_type_eq_dec (a b : exchange_type_t) : {a = b} + {a <> b}.
Proof. decide equality. Defined.

Definition payload_type_eq_dec (a b : payload_type_t) : {a = b} + {a <> b}.
Proof. decide equality. Defined.

(** The C comparisons [a == b] and [a != b] on the enumerations. *)
Definition status_eqb (a b : status_t) : bool :=
  if status_eq_dec a b then true else false.

Definition exchange_type_eqb (a b : exchange_type_t) : bool :=
  if exchange_type_eq_dec a b then true else false.

Definition payload_type_eqb (a b : payload_type_t) : bool :=
  if payload_type_eq_dec a b then true else false.

(** ** Machine integers *)

(** [size_t] counters wrap around; 32 bits is the width of the platforms the
    daemon was written for. *)
Definition size_t_bits : Z := 32.

Definition size_t_incr (n : Z) : Z := (n + 1) mod 2 ^ size_t_bits.

Definition u_int8 (n : Z) : Z := n mod 2 ^ 8.
Definition u_int32 (n : Z) : Z := n mod 2 ^ 32.

(** [chunk_t]: a buffer of octets. *)
Definition chunk_t : Type := list byte.

(** ** The rule table *)

Record supported_payload_entry_t : Type := {
  payload_type : payload_type_t;
  min_occurence : Z;
  max_occurence : Z;
  encrypted : bool
}.

(** [supported_payloads_count] and the pointer [supported_payloads] of the C
    structure are one list here; the fields [exchange_type] and [is_request]
    carry a prefix because [private_message_t] has fields of the same
    names. *)
Record message_rule_t : Type := {
  rule_exchange_type : exchange_type_t;
  rule_is_request : bool;
  encrypted_content : bool;
  supported_payloads : list supported_payload_entry_t
}.

Definition entry (t : payload_type_t) (lo hi : Z) (e : bool)
  : supported_payload_entry_t :=
  {| payload_type := t; min_occurence := lo; max_occurence := hi;
     encrypted := e |}.

Definition supported_ike_sa_init_i_payloads : list supported_payload_entry_t :=
  [ entry SECURITY_ASSOCIATION 1 1 false;
    entry KEY_EXCHANGE 1 1 false;
    entry NONCE 1 1 false ].

Definition supported_ike_sa_init_r_payloads : list supported_payload_entry_t :=
  [ entry SECURITY_ASSOCIATION 1 1 false;
    entry KEY_EXCHANGE 1 1 false;
    entry NONCE 1 1 false ].

Definition supported_ike_auth_i_payloads : list supported_payload_entry_t :=
  [ entry ID_INITIATOR 1 1 true;
    entry CERTIFICATE 0 1 true;
    entry CERTIFICATE_REQUEST 0 1 true;
    entry ID_RESPONDER 0 1 true;
    entry AUTHENTICATION 1 1 true;
    entry SECURITY_ASSOCIATION 1 1 true;
    entry TRAFFIC_SELECTOR_INITIATOR 1 1 true;
    entry TRAFFIC_SELECTOR_RESPONDER 1 1 true ].

Definition supported_ike_auth_r_payloads : list supported_payload_entry_t :=
  [ entry CERTIFICATE 0 1 true;
    entry ID_RESPONDER 0 1 true;
    entry AUTHENTICATION 1 1 true;
    entry SECURITY_ASSOCIATION 1 1 true;
    entry TRAFFIC_SELECTOR_INITIATOR 1 1 true;
    entry TRAFFIC_SELECTOR_RESPONDER 1 1 true ].

Definition rule (x : exchange_type_t) (req enc : bool)
    (l : list supported_payload_entry_t) : message_rule_t :=
  {| rule_exchange_type := x; rule_is_request := req;
     encrypted_content := enc; supported_payloads := l |}.

Definition message_rules : list message_rule_t :=
  [ rule IKE_SA_INIT true false supported_ike_sa_init_i_payloads;
    rule IKE_SA_INIT false false supported_ike_sa_init_r_payloads;
    rule IKE_AUTH true true supported_ike_auth_i_payloads;
    rule IKE_AUTH false true supported_ike_auth_r_payloads ].

(** ** Results of code that can leave defined behaviour *)

Inductive fault : Type :=
  | NullDereference   (* a method is called through a NULL pointer *)
  | UseAfterFree.     (* an object is used after its [destroy] *)

Inductive outcome (A : Type) : Type :=
  | Returns (a : A)
  | Undefined (f : fault).

Arguments Returns {A} a.
Arguments Undefined {A} f.

(** ** Objects *)

Record ike_sa_id_t : Type := {
  initiator_spi : Z;
  responder_spi : Z;
  is_initiator : bool
}.

(** [ike_sa_id_t.clone]. *)
Definition ike_sa_id_clone (id : ike_sa_id_t) : ike_sa_id_t := id.

(** Modelled from the spec: [ike_header_t] is implemented in [ike_header.c],
    which is not among the sources; the fields are those of section 4.C that
    [message.c] reads and writes. *)
Record ike_header_t : Type := {
  header_initiator_spi : Z;
  header_responder_spi : Z;
  header_next_type : payload_type_t;
  header_maj_version : Z;
  header_min_version : Z;
  header_exchange_type : exchange_type_t;
  header_initiator_flag : bool;
  header_response_flag : bool;
  header_message_id : Z
}.

(** Modelled from the spec: [ike_header_create] of [ike_header.c]; the version
    is 2.0 (section 3), nothing else is assigned yet. *)
Definition ike_header_create : ike_header_t :=
  {| header_initiator_spi := 0; header_responder_spi := 0;
     header_next_type := NO_PAYLOAD;
     header_maj_version := 2; header_min_version := 0;
     header_exchange_type := EXCHANGE_TYPE_UNDEFINED;
     header_initiator_flag := true; header_response_flag := false;
     header_message_id := 0 |}.

Section Encoding.

(** The objects that [message.c] only passes on: endpoints, the cipher and
    the MAC capability, the parser and the generator. *)
Context {host_t crypter_t signer_t parser_t generator_t : Type}.

(** A payload object behind the [payload_t] interface: its type, its
    next-type link and its content.  The last two fields are the state of an
    [encryption_payload_t] (the bound transforms and the inner payloads); an
    object of type [ENCRYPTED] is always such a payload. *)
#[warnings="-register-all"]
Inductive payload_t : Type := Build_payload {
  get_type : payload_type_t;
  get_next_type : payload_type_t;
  body : chunk_t;
  transforms : option (crypter_t * signer_t);
  inner_payloads : list payload_t
}.

Definition set_next_type (payload : payload_t) (t : payload_type_t) : payload_t :=
  {| get_type := get_type payload; get_next_type := t; body := body payload;
     transforms := transforms payload;
     inner_payloads := inner_payloads payload |}.

(** Modelled from the spec: [encryption_payload_create] of
    [encryption_payload.c], which is not among the sources; a new Encryption
    payload has no inner payload and no transforms (section 4.D). *)
Definition encryption_payload_create : payload_t :=
  {| get_type := ENCRYPTED; get_next_type := NO_PAYLOAD; body := [];
     transforms := None; inner_payloads := [] |}.

(** Modelled from the spec: [add_payload] of [encryption_payload.c], "append
    [p] to the inner ordered list" (section 4.D). *)
Definition encryption_payload_add_payload (this payload : payload_t) : payload_t :=
  {| get_type := get_type this; get_next_type := get_next_type this;
     body := body this; transforms := transforms this;
     inner_payloads := inner_payloads this ++ [payload] |}.

(** Modelled from the spec: [set_transforms] of [encryption_payload.c], "bind
    cipher/MAC capabilities" (section 4.D). *)
Definition set_transforms (this : payload_t) (crypter : crypter_t)
    (signer : signer_t) : payload_t :=
  {| get_type := get_type this; get_next_type := get_next_type this;
     body := body this; transforms := Some (crypter, signer);
     inner_payloads := inner_payloads this |}.

(** [packet_t]; a NULL endpoint is [None]. *)
Record packet_t : Type := {
  source : option host_t;
  destination : option host_t;
  data : chunk_t
}.

(** Modelled from the spec: [packet_create] of [packet.c], which is not among
    the sources (section 6, "Packet"); a new packet has no endpoint and no
    data. *)
Definition packet_create : packet_t :=
  {| source := None; destination := None; data := [] |}.

(** Modelled from the spec: [clone] of [packet.c] (section 6, "Packet"). *)
Definition packet_clone (p : packet_t) : packet_t := p.

(** [private_message_t] without the function pointers and the logger.  The
    two version fields are not assigned by the constructor: [None] is such
    a field before its first assignment.  [ike_sa_id] is [None] for NULL. *)
Record private_message_t : Type := {
  major_version : option Z;
  minor_version : option Z;
  first_payload : payload_type_t;
  exchange_type : exchange_type_t;
  is_request : bool;
  message_id : Z;
  ike_sa_id : option ike_sa_id_t;
  packet : packet_t;
  payloads : list payload_t;
  parser : parser_t
}.

(** ** Collaborators *)

(** Modelled from the spec: the parser ([parser.c]), the generator
    ([generator.c]), the payloads' own [verify] and the cryptographic half of
    the Encryption payload ([encryption_payload.c]) are not among the
    sources.  They are an interface here, with the one law that section 4.A
    gives the parser: its cursor moves forward through a finite buffer. *)
Class collaborators : Type := {
  (* parser_t *)
  parser_create : chunk_t -> parser_t;
  reset_context : parser_t -> parser_t;
  (* parse_payload (parser, HEADER, &ike_header) *)
  parse_ike_header : parser_t -> status_t * ike_header_t * parser_t;
  (* parse_payload (parser, type, &payload); the payload counts only when
     the status is SUCCESS *)
  parse_payload : parser_t -> payload_type_t -> status_t * payload_t * parser_t;
  (* octets between the cursor and the end of the buffer *)
  parser_left : parser_t -> nat;
  parse_payload_advances :
    forall parser t payload parser',
      parse_payload parser t = (SUCCESS, payload, parser') ->
      (parser_left parser' < parser_left parser)%nat;
  (* payload_t.verify *)
  ike_header_verify : ike_header_t -> status_t;
  payload_verify : payload_t -> status_t;
  (* generator_t *)
  generator_create : generator_t;
  generate_ike_header : generator_t -> ike_header_t -> generator_t;
  generate_payload : generator_t -> payload_t -> generator_t;
  write_to_chunk : generator_t -> chunk_t;
  (* encryption_payload_t, with the transforms bound before *)
  encrypt : payload_t -> status_t * payload_t;
  build_signature : payload_t -> chunk_t -> status_t * chunk_t;
  verify_signature : payload_t -> chunk_t -> status_t;
  decrypt : payload_t -> status_t * payload_t
}.

Context {ext : collaborators}.

(** ** [linked_list_t]

    [utils/linked_list.c] is not among the sources; the payload list is the
    "ordered sequence of payload objects" of section 3, a list here. *)

(** Modelled from the spec: [get_count] of [linked_list.c]. *)
Definition get_count {A : Type} (l : list A) : Z := Z.of_nat (length l).

(** Modelled from the spec: [insert_last] of [linked_list.c]. *)
Definition insert_last {A : Type} (l : list A) (x : A) : list A := l ++ [x].

(** Modelled from the spec: [get_last] of [linked_list.c], [None] on the
    empty list. *)
Fixpoint get_last {A : Type} (l : list A) : option A :=
  match l with
  | [] => None
  | [x] => Some x
  | _ :: l' => get_last l'
  end.

(** Modelled from the spec: the list that [remove_last] of [linked_list.c]
    leaves. *)
Fixpoint remove_last {A : Type} (l : list A) : list A :=
  match l with
  | [] => []
  | [_] => []
  | x :: l' => x :: remove_last l'
  end.

(** [get_last] followed by an update of the object it returns. *)
Fixpoint update_last {A : Type} (f : A -> A) (l : list A) : list A :=
  match l with
  | [] => []
  | [x] => [f x]
  | x :: l' => x :: update_last f l'
  end.

(** ** Field updates of [private_message_t] *)

Definition with_versions (this : private_message_t) (maj mnr : option Z)
  : private_message_t :=
  {| major_version := maj; minor_version := mnr;
     first_payload := first_payload this; exchange_type := exchange_type this;
     is_request := is_request this; message_id := message_id this;
     ike_sa_id := ike_sa_id this; packet := packet this;
     payloads := payloads this; parser := parser this |}.

Definition with_first_payload (this : private_message_t) (t : payload_type_t)
  : private_message_t :=
  {| major_version := major_version this; minor_version := minor_version this;
     first_payload := t; exchange_type := exchange_type this;
     is_request := is_request this; message_id := message_id this;
     ike_sa_id := ike_sa_id this; packet := packet this;
     payloads := payloads this; parser := parser this |}.

Definition with_exchange_type (this : private_message_t) (x : exchange_type_t)
  : private_message_t :=
  {| major_version := major_version this; minor_version := minor_version this;
     first_payload := first_payload this; exchange_type := x;
     is_request := is_request this; message_id := message_id this;
     ike_sa_id := ike_sa_id this; packet := packet this;
     payloads := payloads this; parser := parser this |}.

Definition with_is_request (this : private_message_t) (b : bool)
  : private_message_t :=
  {| major_version := major_version this; minor_version := minor_version this;
     first_payload := first_payload this; exchange_type := exchange_type this;
     is_request := b; message_id := message_id this;
     ike_sa_id := ike_sa_id this; packet := packet this;
     payloads := payloads this; parser := parser this |}.

Definition with_message_id (this : private_message_t) (n : Z)
  : private_message_t :=
  {| major_version := major_version this; minor_version := minor_version this;
     first_payload := first_payload this; exchange_type := exchange_type this;
     is_request := is_request this; message_id := n;
     ike_sa_id := ike_sa_id this; packet := packet this;
     payloads := payloads this; parser := parser this |}.

Definition with_ike_sa_id (this : private_message_t) (id : option ike_sa_id_t)
  : private_message_t :=
  {| major_version := major_version this; minor_version := minor_version this;
     first_payload := first_payload this; exchange_type := exchange_type this;
     is_request := is_request this; message_id := message_id this;
     ike_sa_id := id; packet := packet this;
     payloads := payloads this; parser := parser this |}.

Definition with_packet (this : private_message_t) (p : packet_t)
  : private_message_t :=
  {| major_version := major_version this; minor_version := minor_version this;
     first_payload := first_payload this; exchange_type := exchange_type this;
     is_request := is_request this; message_id := message_id this;
     ike_sa_id := ike_sa_id this; packet := p;
     payloads := payloads this; parser := parser this |}.

Definition with_payloads (this : private_message_t) (l : list payload_t)
  : private_message_t :=
  {| major_version := major_version this; minor_version := minor_version this;
     first_payload := first_payload this; exchange_type := exchange_type this;
     is_request := is_request this; message_id := message_id this;
     ike_sa_id := ike_sa_id this; packet := packet this;
     payloads := l; parser := parser this |}.

Definition with_parser (this : private_message_t) (p : parser_t)
  : private_message_t :=
  {| major_version := major_version this; minor_version := minor_version this;
     first_payload := first_payload this; exchange_type := exchange_type this;
     is_request := is_request this; message_id := message_id this;
     ike_sa_id := ike_sa_id this; packet := packet this;
     payloads := payloads this; parser := p |}.

(** ** Rule lookup *)

(** The loop of [get_message_rule] over [message_rules]; the second component
    is what [*message_rule] is set to, [None] for NULL. *)
Fixpoint get_message_rule_in (rules : list message_rule_t)
    (this : private_message_t) : status_t * option message_rule_t :=
  match rules with
  | [] => (NOT_FOUND, None)
  | r :: rules' =>
      if exchange_type_eqb (exchange_type this) (rule_exchange_type r)
         && Bool.eqb (is_request this) (rule_is_request r)
      then (SUCCESS, Some r)
      else get_message_rule_in rules' this
  end.

Definition get_message_rule (this : private_message_t)
  : status_t * option message_rule_t :=
  get_message_rule_in message_rules this.

Fixpoint get_supported_payload_entry_in (entries : list supported_payload_entry_t)
    (t : payload_type_t) : status_t * option supported_payload_entry_t :=
  match entries with
  | [] => (NOT_FOUND, None)
  | e :: entries' =>
      if payload_type_eqb (payload_type e) t
      then (SUCCESS, Some e)
      else get_supported_payload_entry_in entries' t
  end.

Definition get_supported_payload_entry (message_rule : message_rule_t)
    (t : payload_type_t) : status_t * option supported_payload_entry_t :=
  get_supported_payload_entry_in (supported_payloads message_rule) t.

(** ** Accessors *)

Definition set_ike_sa_id (this : private_message_t) (id : ike_sa_id_t)
  : private_message_t :=
  with_ike_sa_id this (Some (ike_sa_id_clone id)).

(** [get_ike_sa_id]: [out] is the caller's [*ike_sa_id] before the call, the
    second component of the result is [*ike_sa_id] after it. *)
Definition get_ike_sa_id (this : private_message_t) (out : option ike_sa_id_t)
  : status_t * option ike_sa_id_t :=
  match ike_sa_id this with
  | None => (FAILED, out)
  | Some id => (SUCCESS, Some (ike_sa_id_clone id))
  end.

Definition set_message_id (this : private_message_t) (n : Z) : private_message_t :=
  with_message_id this (u_int32 n).

Definition get_message_id (this : private_message_t) : Z := message_id this.

Definition get_responder_spi (this : private_message_t) : outcome Z :=
  match ike_sa_id this with
  | None => Undefined NullDereference
  | Some id => Returns (responder_spi id)
  end.

Definition set_major_version (this : private_message_t) (v : Z) : private_message_t :=
  with_versions this (Some (u_int8 v)) (minor_version this).

Definition get_major_version (this : private_message_t) : option Z :=
  major_version this.

Definition set_minor_version (this : private_message_t) (v : Z) : private_message_t :=
  with_versions this (major_version this) (Some (u_int8 v)).

Definition get_minor_version (this : private_message_t) : option Z :=
  minor_version this.

Definition set_exchange_type (this : private_message_t) (x : exchange_type_t)
  : private_message_t :=
  with_exchange_type this x.

Definition get_exchange_type (this : private_message_t) : exchange_type_t :=
  exchange_type this.

Definition set_request (this : private_message_t) (request : bool)
  : private_message_t :=
  with_is_request this request.

Definition get_request (this : private_message_t) : bool := is_request this.

Definition add_payload (this : private_message_t) (payload : payload_t)
  : private_message_t :=
  let this :=
    if 0 <? get_count (payloads this)
    then
      with_payloads this
        (update_last
           (fun last_payload => set_next_type last_payload (get_type payload))
           (payloads this))
    else with_first_payload this (get_type payload) in
  let payload := set_next_type payload NO_PAYLOAD in
  with_payloads this (insert_last (payloads this) payload).

Definition set_source (this : private_message_t) (host : option host_t)
  : private_message_t :=
  with_packet this
    {| source := host; destination := destination (packet this);
       data := data (packet this) |}.

Definition set_destination (this : private_message_t) (host : option host_t)
  : private_message_t :=
  with_packet this
    {| source := source (packet this); destination := host;
       data := data (packet this) |}.

Definition get_source (this : private_message_t) : option host_t :=
  source (packet this).

Definition get_destination (this : private_message_t) : option host_t :=
  destination (packet this).

(** What a forward iterator over the payload list yields. *)
Definition get_payload_iterator (this : private_message_t) : list payload_t :=
  payloads this.

(** ** Construction *)

Definition message_create_from_packet (packet : option packet_t)
  : private_message_t :=
  let packet := match packet with
                | None => packet_create
                | Some p => p
                end in
  {| major_version := None; minor_version := None;
     first_payload := NO_PAYLOAD;
     exchange_type := EXCHANGE_TYPE_UNDEFINED;
     is_request := true;
     message_id := 0;
     ike_sa_id := None;
     packet := packet;
     payloads := [];
     parser := parser_create (data packet) |}.

Definition message_create : private_message_t :=
  message_create_from_packet None.

(** ** [verify] *)

(** The inner [while] of [verify] for one rule entry, from the reset
    iterator on: [None] when [found_payloads] passes [max_occurence] (the
    function leaves with [NOT_SUPPORTED] from inside the loop), the final
    [found_payloads] otherwise. *)
Fixpoint count_payloads (t : payload_type_t) (max : Z) (l : list payload_t)
    (found_payloads : Z) : option Z :=
  match l with
  | [] => Some found_payloads
  | current_payload :: l' =>
      if payload_type_eqb (get_type current_payload) t
      then
        let found_payloads := size_t_incr found_payloads in
        if max <? found_payloads
        then None
        else count_payloads t max l' found_payloads
      else count_payloads t max l' found_payloads
  end.

(** The [for] loop of [verify] over the entries of the rule. *)
Fixpoint verify_entries (entries : list supported_payload_entry_t)
    (l : list payload_t) : status_t :=
  match entries with
  | [] => SUCCESS
  | e :: entries' =>
      match count_payloads (payload_type e) (max_occurence e) l 0 with
      | None => NOT_SUPPORTED
      | Some found_payloads =>
          if found_payloads <? min_occurence e
          then NOT_SUPPORTED
          else verify_entries entries' l
      end
  end.

Definition verify (this : private_message_t) : status_t :=
  match get_message_rule this with
  | (status, None) => status
  | (_, Some message_rule) =>
      verify_entries (supported_payloads message_rule) (payloads this)
  end.

(** ** The encrypt pass *)

(** The second [while] of [encrypt_payloads], over the temporary list
    [all_payloads]; the state is [this->payloads] and [encryption_payload]
    ([None] for NULL).  The [break] is taken with [to_encrypt] just set, so
    the loop is left before the [if (to_encrypt)] that follows it, and
    [to_encrypt] is [false] whenever that [if] is reached. *)
Fixpoint encrypt_payloads_loop (message_rule : message_rule_t)
    (all_payloads : list payload_t)
    (this_payloads : list payload_t) (encryption_payload : option payload_t)
  : list payload_t * option payload_t :=
  match all_payloads with
  | [] => (this_payloads, encryption_payload)
  | current_payload :: all_payloads' =>
      let to_encrypt := false in
      let must_encrypt :=
        match get_supported_payload_entry message_rule (get_type current_payload) with
        | (SUCCESS, Some supported_payload_entry) =>
            encrypted supported_payload_entry
        | _ => false
        end in
      if must_encrypt
      then (* to_encrypt = TRUE; break; *)
        (this_payloads, encryption_payload)
      else if to_encrypt
      then
        let encryption_payload :=
          match encryption_payload with
          | None => encryption_payload_create
          | Some p => p
          end in
        encrypt_payloads_loop message_rule all_payloads' this_payloads
          (Some (encryption_payload_add_payload encryption_payload current_payload))
      else
        encrypt_payloads_loop message_rule all_payloads'
          (insert_last this_payloads current_payload) encryption_payload
  end.

Definition encrypt_payloads (this : private_message_t) (crypter : crypter_t)
    (signer : signer_t) : status_t * private_message_t :=
  match get_message_rule this with
  | (status, None) => (status, this)
  | (_, Some message_rule) =>
      if negb (encrypted_content message_rule)
      then (SUCCESS, this)
      else
        (* the first while moves every payload to all_payloads *)
        let all_payloads := payloads this in
        let (this_payloads, encryption_payload) :=
          encrypt_payloads_loop message_rule all_payloads [] None in
        let this := with_payloads this this_payloads in
        match encryption_payload with
        | None => (SUCCESS, this)
        | Some encryption_payload =>
            let encryption_payload :=
              set_transforms encryption_payload crypter signer in
            let (status, encryption_payload) := encrypt encryption_payload in
            (status, add_payload this encryption_payload)
        end
  end.

(** ** [generate] *)

Definition is_null {A : Type} (p : option A) : bool :=
  match p with
  | None => true
  | Some _ => false
  end.

(** The generating loop from the first payload on: [payload] is the object
    whose successor is now known, [rest] what the iterator still yields.  The
    result is the generator and the payloads with their links assigned. *)
Fixpoint generate_payloads (generator : generator_t) (payload : payload_t)
    (rest : list payload_t) : generator_t * list payload_t :=
  match rest with
  | [] =>
      let payload := set_next_type payload NO_PAYLOAD in
      (generate_payload generator payload, [payload])
  | next_payload :: rest' =>
      let payload := set_next_type payload (get_type next_payload) in
      let (generator, l) :=
        generate_payloads (generate_payload generator payload) next_payload rest' in
      (generator, payload :: l)
  end.

Definition header_set_next_type (h : ike_header_t) (t : payload_type_t)
  : ike_header_t :=
  {| header_initiator_spi := header_initiator_spi h;
     header_responder_spi := header_responder_spi h;
     header_next_type := t;
     header_maj_version := header_maj_version h;
     header_min_version := header_min_version h;
     header_exchange_type := header_exchange_type h;
     header_initiator_flag := header_initiator_flag h;
     header_response_flag := header_response_flag h;
     header_message_id := header_message_id h |}.

(** The header that [generate] builds from the message and its IKE SA id. *)
Definition build_ike_header (this : private_message_t) (id : ike_sa_id_t)
  : ike_header_t :=
  {| header_initiator_spi := initiator_spi id;
     header_responder_spi := responder_spi id;
     header_next_type := header_next_type ike_header_create;
     header_maj_version := header_maj_version ike_header_create;
     header_min_version := header_min_version ike_header_create;
     header_exchange_type := exchange_type this;
     header_initiator_flag := is_initiator id;
     header_response_flag := negb (is_request this);
     header_message_id := message_id this |}.

Definition with_data (this : private_message_t) (d : chunk_t) : private_message_t :=
  with_packet this
    {| source := source (packet this); destination := destination (packet this);
       data := d |}.

(** [generate]: the status, the message afterwards and [*packet] ([None]
    when it is not assigned).  The first iteration of the generating loop,
    where [payload] is the header, is written apart from the others.  The
    header is destroyed as soon as the last object is generated; with an
    empty list [payload] is still the header when its type is asked for
    after that. *)
Definition generate (this : private_message_t) (crypter : crypter_t)
    (signer : signer_t)
  : outcome (status_t * private_message_t * option packet_t) :=
  if exchange_type_eqb (exchange_type this) EXCHANGE_TYPE_UNDEFINED
  then Returns (INVALID_STATE, this, None)
  else if is_null (source (packet this)) || is_null (destination (packet this))
  then Returns (INVALID_STATE, this, None)
  else
    let (status, this) := encrypt_payloads this crypter signer in
    if negb (status_eqb status SUCCESS)
    then Returns (status, this, None)
    else
      match ike_sa_id this with
      | None => Undefined NullDereference
      | Some id =>
          let ike_header := build_ike_header this id in
          let generator := generator_create in
          let (generator, generated) :=
            match payloads this with
            | [] =>
                (generate_ike_header generator
                   (header_set_next_type ike_header NO_PAYLOAD), [])
            | next_payload :: rest =>
                generate_payloads
                  (generate_ike_header generator
                     (header_set_next_type ike_header (get_type next_payload)))
                  next_payload rest
            end in
          let this := with_data (with_payloads this generated)
                        (write_to_chunk generator) in
          match get_last generated with
          | Some payload =>
              if payload_type_eqb (get_type payload) ENCRYPTED
              then
                let (status, signed) :=
                  build_signature payload (data (packet this)) in
                let this := with_data this signed in
                if negb (status_eqb status SUCCESS)
                then Returns (status, this, None)
                else Returns (SUCCESS, this, Some (packet_clone (packet this)))
              else Returns (SUCCESS, this, Some (packet_clone (packet this)))
          | None => (* payload is the destroyed ike_header *)
              Undefined UseAfterFree
          end
      end.

(** ** [parse_header] *)

Definition parse_header (this : private_message_t)
  : status_t * private_message_t :=
  let '(status, ike_header, cursor) :=
    parse_ike_header (reset_context (parser this)) in
  let this := with_parser this cursor in
  if negb (status_eqb status SUCCESS)
  then (status, this)
  else
    let status := ike_header_verify ike_header in
    if negb (status_eqb status SUCCESS)
    then (status, this)
    else
      (SUCCESS,
       {| major_version := Some (header_maj_version ike_header);
          minor_version := Some (header_min_version ike_header);
          first_payload := header_next_type ike_header;
          exchange_type := header_exchange_type ike_header;
          is_request := negb (header_response_flag ike_header);
          message_id := header_message_id ike_header;
          ike_sa_id :=
            Some {| initiator_spi := header_initiator_spi ike_header;
                    responder_spi := header_responder_spi ike_header;
                    is_initiator := header_initiator_flag ike_header |};
          packet := packet this;
          payloads := payloads this;
          parser := parser this |}).

(** ** The decrypt pass *)

(** The [while] of [decrypt_payloads]: [rest] is what the iterator over
    [this->payloads] still yields, beginning with the current payload.

    In the [ENCRYPTED] branch the current payload is the last of the list
    (the test on [payload_number]), so it is the object that [remove_last]
    hands to [encryption_payload], which is destroyed at the end of the
    branch.  With inner payloads present, control then reaches
    [current_payload->get_type (current_payload)] with [current_payload]
    still that object: the branch never assigns [current_payload] again.
    With no inner payload the loop is left by [break]; [remove_last] has
    taken the Encryption payload out of the list already. *)
Fixpoint decrypt_payloads_loop (message_rule : message_rule_t)
    (crypter : crypter_t) (signer : signer_t)
    (this : private_message_t) (rest : list payload_t)
    (payload_number : Z) (current_payload_was_encrypted : bool)
  : outcome (status_t * private_message_t) :=
  match rest with
  | [] => Returns (verify this, this)
  | current_payload :: rest' =>
      if payload_type_eqb (get_type current_payload) ENCRYPTED
      then
        if negb (encrypted_content message_rule)
        then Returns (FAILED, this)
        else if negb (payload_number =? get_count (payloads this))
        then Returns (FAILED, this)
        else
          let encryption_payload := current_payload in
          let this := with_payloads this (remove_last (payloads this)) in
          let encryption_payload :=
            set_transforms encryption_payload crypter signer in
          let status :=
            verify_signature encryption_payload (data (packet this)) in
          if negb (status_eqb status SUCCESS)
          then Returns (status, this)
          else
            let (status, encryption_payload) := decrypt encryption_payload in
            if negb (status_eqb status SUCCESS)
            then Returns (status, this)
            else
              match inner_payloads encryption_payload with
              | [] => (* iterator->remove; break *)
                  Returns (verify this, this)
              | _ :: _ => Undefined UseAfterFree
              end
      else
        match get_supported_payload_entry message_rule (get_type current_payload) with
        | (status, None) => Returns (status, this)
        | (status, Some payload_entry) =>
            if negb (Bool.eqb (encrypted payload_entry) current_payload_was_encrypted)
            then Returns (status, this)
            else
              decrypt_payloads_loop message_rule crypter signer this rest'
                (payload_number + 1) current_payload_was_encrypted
        end
  end.

Definition decrypt_payloads (this : private_message_t) (crypter : crypter_t)
    (signer : signer_t) : outcome (status_t * private_message_t) :=
  match get_message_rule this with
  | (status, None) => Returns (status, this)
  | (_, Some message_rule) =>
      decrypt_payloads_loop message_rule crypter signer this (payloads this)
        1 false
  end.

(** ** [parse_body] *)

(** The [while] of [parse_body].  [fuel] bounds the iterations; [parse_body]
    passes more than the parser has octets left, and every iteration that
    goes on has consumed one (law [parse_payload_advances]), so the first
    branch is never taken. *)
Fixpoint parse_payloads (fuel : nat) (this : private_message_t)
    (current_payload_type : payload_type_t) : status_t * private_message_t :=
  match fuel with
  | O => (PARSE_ERROR, this)
  | S fuel' =>
      if payload_type_eqb current_payload_type NO_PAYLOAD
      then (SUCCESS, this)
      else
        let '(status, current_payload, cursor) :=
          parse_payload (parser this) current_payload_type in
        let this := with_parser this cursor in
        if negb (status_eqb status SUCCESS)
        then (status, this)
        else
          let status := payload_verify current_payload in
          if negb (status_eqb status SUCCESS)
          then (VERIFY_ERROR, this)
          else
            let current_payload_type := get_next_type current_payload in
            parse_payloads fuel'
              (with_payloads this (insert_last (payloads this) current_payload))
              current_payload_type
  end.

Definition parse_body (this : private_message_t) (crypter : crypter_t)
    (signer : signer_t) : outcome (status_t * private_message_t) :=
  let (status, this) :=
    parse_payloads (S (parser_left (parser this))) this (first_payload this) in
  if negb (status_eqb status SUCCESS)
  then Returns (status, this)
  else decrypt_payloads this crypter signer.

End Encoding.

(** ** The quantities the specification speaks of *)

Section Notions.

Context {host_t crypter_t signer_t parser_t : Type}.

Abbreviation payload_t := (@payload_t crypter_t signer_t).
Abbreviation private_message_t :=
  (@private_message_t host_t crypter_t signer_t parser_t).

(** A payload object of type [t] with the given content, as a caller builds
    it before [add_payload]. *)
Definition payload_of (t : payload_type_t) (content : chunk_t) : payload_t :=
  {| get_type := t; get_next_type := NO_PAYLOAD; body := content;
     transforms := None; inner_payloads := [] |}.

(** "count matching payloads in the current list": the number of payloads of
    type [t] in [l], in the words of the specification of [verify]. *)
Definition occurrences (t : payload_type_t) (l : list payload_t) : Z :=
  Z.of_nat (length (filter (fun p => payload_type_eqb (get_type p) t) l)).

(** The type of the element at position [i], [NO_PAYLOAD] past the end. *)
Definition type_at (l : list payload_t) (i : nat) : payload_type_t :=
  match nth_error l i with
  | Some p => get_type p
  | None => NO_PAYLOAD
  end.

(** Invariant 1 of section 8: [first_payload] is the type of the first
    payload, every next-type link is the type of the successor, the last
    one is [NO_PAYLOAD]. *)
Definition linked (l : list payload_t) : Prop :=
  forall (i : nat) (p : payload_t),
    nth_error l i = Some p -> get_next_type p = type_at l (S i).

Definition next_type_chain (this : private_message_t) : Prop :=
  first_payload this = type_at (payloads this) 0 /\ linked (payloads this).

(** The metadata of a message: everything but the payload list and the
    parser. *)
Definition same_metadata (a b : private_message_t) : Prop :=
  major_version a = major_version b
  /\ minor_version a = minor_version b
  /\ first_payload a = first_payload b
  /\ exchange_type a = exchange_type b
  /\ is_request a = is_request b
  /\ message_id a = message_id b
  /\ ike_sa_id a = ike_sa_id b
  /\ packet a = packet b.

(** An entry's count is outside of its bounds. *)
Definition out_of_bounds (l : list payload_t) (e : supported_payload_entry_t)
  : Prop :=
  max_occurence e < occurrences (payload_type e) l
  \/ occurrences (payload_type e) l < min_occurence e.

(** What the decrypt pass requires of a payload before it goes on to the
    next one: not an Encryption payload, listed in the rule, and listed as
    not encrypted (no envelope has been opened so far). *)
Definition passes_unprotected (message_rule : message_rule_t) (p : payload_t)
  : Prop :=
  get_type p <> ENCRYPTED
  /\ exists e,
       get_supported_payload_entry message_rule (get_type p) = (SUCCESS, Some e)
       /\ encrypted e = false.

(** The (exchange type, direction) pairs the rule table has a record for. *)
Definition ruled : list (exchange_type_t * bool) :=
  [ (IKE_SA_INIT, true); (IKE_SA_INIT, false);
    (IKE_AUTH, true); (IKE_AUTH, false) ].

(** The calls that neither assign the IKE SA id nor parse: the setters
    other than [set_ike_sa_id], and [add_payload]. *)
Inductive call : Type :=
  | call_set_major_version (v : Z)
  | call_set_minor_version (v : Z)
  | call_set_message_id (n : Z)
  | call_set_exchange_type (x : exchange_type_t)
  | call_set_request (b : bool)
  | call_set_source (h : option host_t)
  | call_set_destination (h : option host_t)
  | call_add_payload (p : payload_t).

Definition run_call (this : private_message_t) (c : call) : private_message_t :=
  match c with
  | call_set_major_version v => set_major_version this v
  | call_set_minor_version v => set_minor_version this v
  | call_set_message_id n => set_message_id this n
  | call_set_exchange_type x => set_exchange_type this x
  | call_set_request b => set_request this b
  | call_set_source h => set_source this h
  | call_set_destination h => set_destination this h
  | call_add_payload p => add_payload this p
  end.

(** The rule lists the type of [p] as one to encrypt. *)
Definition listed_encrypted (message_rule : message_rule_t) (p : payload_t)
  : Prop :=
  exists e,
    get_supported_payload_entry message_rule (get_type p) = (SUCCESS, Some e)
    /\ encrypted e = true.

(** Everything of a payload object but its next-type link. *)
Definition content (p : payload_t)
  : payload_type_t * chunk_t * option (crypter_t * signer_t) * list payload_t :=
  (get_type p, body p, transforms p, inner_payloads p).


End Notions.

Section Runs.

Context {host_t crypter_t signer_t parser_t generator_t : Type}.
Context {ext : @collaborators crypter_t signer_t parser_t generator_t}.

(** The octets that the generator of [generate] emits for a message whose
    payload list has become [generated]: the header, with the type of the
    first payload as its next-type, and then the payloads in the order of
    the list. *)
Definition emitted
    (this : @private_message_t host_t crypter_t signer_t parser_t)
    (id : ike_sa_id_t) (generated : list (@payload_t crypter_t signer_t))
  : chunk_t :=
  write_to_chunk
    (fold_left generate_payload generated
       (generate_ike_header generator_create
          (header_set_next_type (build_ike_header this id)
             (type_at generated 0)))).

(** The decrypt pass of [parse_body] comes to the Encryption payload [e]: the
    parsing loop has succeeded with the message [parsed], whose rule allows
    encrypted content, [e] is the last payload of the list, and the
    payloads [before] it have passed. *)
Definition reaches_envelope
    (this parsed : @private_message_t host_t crypter_t signer_t parser_t)
    (message_rule : message_rule_t)
    (before : list (@payload_t crypter_t signer_t))
    (e : @payload_t crypter_t signer_t) : Prop :=
  parse_payloads (S (parser_left (parser this))) this (first_payload this)
    = (SUCCESS, parsed)
  /\ get_message_rule parsed = (SUCCESS, Some message_rule)
  /\ encrypted_content message_rule = true
  /\ payloads parsed = before ++ [e]
  /\ Forall (passes_unprotected message_rule) before
  /\ get_type e = ENCRYPTED.

End Runs.


(** ** A small codec to run the model on

    One octet per payload, its next-type link; a header of three octets:
    exchange type, flags, type of the first payload.  The type codes are
    those of the IKEv2 message layout.  Content, keys and endpoints are
    trivial. *)
Module Plain.

Definition payload_type_code (t : payload_type_t) : byte :=
  match t with
  | NO_PAYLOAD => x00
  | SECURITY_ASSOCIATION => x21
  | KEY_EXCHANGE => x22
  | ID_INITIATOR => x23
  | ID_RESPONDER => x24
  | CERTIFICATE => x25
  | CERTIFICATE_REQUEST => x26
  | AUTHENTICATION => x27
  | NONCE => x28
  | TRAFFIC_SELECTOR_INITIATOR => x2c
  | TRAFFIC_SELECTOR_RESPONDER => x2d
  | ENCRYPTED => x2e
  | HEADER => x8c
  end.

Definition payload_types : list payload_type_t :=
  [ NO_PAYLOAD; SECURITY_ASSOCIATION; KEY_EXCHANGE; ID_INITIATOR; ID_RESPONDER;
    CERTIFICATE; CERTIFICATE_REQUEST; AUTHENTICATION; NONCE;
    TRAFFIC_SELECTOR_INITIATOR; TRAFFIC_SELECTOR_RESPONDER; ENCRYPTED; HEADER ].

Definition payload_type_of_code (b : byte) : option payload_type_t :=
  find (fun t => Byte.eqb (payload_type_code t) b) payload_types.

Definition exchange_type_code (x : exchange_type_t) : byte :=
  match x with
  | IKE_SA_INIT => x22
  | IKE_AUTH => x23
  | CREATE_CHILD_SA => x24
  | INFORMATIONAL => x25
  | EXCHANGE_TYPE_UNDEFINED => xf0
  end.

Definition exchange_type_of_code (b : byte) : option exchange_type_t :=
  find (fun x => Byte.eqb (exchange_type_code x) b)
    [ IKE_SA_INIT; IKE_AUTH; CREATE_CHILD_SA; INFORMATIONAL ].

(** Flags octet: bit 3 is the initiator flag, bit 5 the response flag. *)
Definition flags_code (initiator response : bool) : byte :=
  match initiator, response with
  | false, false => x00
  | true, false => x08
  | false, true => x20
  | true, true => x28
  end.

Definition payload : Type := @payload_t unit unit.

(** The parser: the buffer and what lies behind the cursor. *)
Definition octet_parser : Type := chunk_t * chunk_t.

Definition message : Type := @private_message_t unit unit unit octet_parser.

Definition read_header (p : octet_parser) : status_t * ike_header_t * octet_parser :=
  match snd p with
  | x :: f :: n :: rest =>
      match exchange_type_of_code x, payload_type_of_code n with
      | Some xt, Some nt =>
          (SUCCESS,
           {| header_initiator_spi := 0; header_responder_spi := 0;
              header_next_type := nt;
              header_maj_version := 2; header_min_version := 0;
              header_exchange_type := xt;
              header_initiator_flag := N.testbit (Byte.to_N f) 3;
              header_response_flag := N.testbit (Byte.to_N f) 5;
              header_message_id := 0 |},
           (fst p, rest))
      | _, _ => (PARSE_ERROR, ike_header_create, p)
      end
  | _ => (PARSE_ERROR, ike_header_create, p)
  end.

Definition read_payload (p : octet_parser) (t : payload_type_t)
  : status_t * payload * octet_parser :=
  match snd p with
  | n :: rest =>
      match payload_type_of_code n with
      | Some nt =>
          (SUCCESS,
           {| get_type := t; get_next_type := nt; body := [];
              transforms := None; inner_payloads := [] |},
           (fst p, rest))
      | None => (PARSE_ERROR, payload_of t [], p)
      end
  | [] => (PARSE_ERROR, payload_of t [], p)
  end.

Definition codec : @collaborators unit unit octet_parser chunk_t.
Proof.
  refine
    {| parser_create := fun d => (d, d);
       reset_context := fun p => (fst p, fst p);
       parse_ike_header := read_header;
       parse_payload := read_payload;
       parser_left := fun p => length (snd p);
       parse_payload_advances := _;
       ike_header_verify := fun _ => SUCCESS;
       payload_verify := fun _ => SUCCESS;
       generator_create := [];
       generate_ike_header := fun g h =>
         g ++ [ exchange_type_code (header_exchange_type h);
                flags_code (header_initiator_flag h) (header_response_flag h);
                payload_type_code (header_next_type h) ];
       generate_payload := fun g x => g ++ [ payload_type_code (get_next_type x) ];
       write_to_chunk := fun g => g;
       encrypt := fun x => (SUCCESS, x);
       build_signature := fun _ d => (SUCCESS, d);
       verify_signature := fun _ _ => SUCCESS;
       decrypt := fun x => (SUCCESS, x) |}.
  (* the cursor moves forward *)
  intros p t x p'. unfold read_payload.
  destruct (snd p) as [|n rest] eqn:E; [discriminate|].
  destruct (payload_type_of_code n); [|discriminate].
  intros H. injection H as _ <-. simpl. lia.
Defined.

(** A message as it stands after [parse_header] on a received packet. *)
Definition received (octets : chunk_t) : message :=
  snd (parse_header (ext := codec)
         (message_create_from_packet (ext := codec)
            (Some {| source := None; destination := None; data := octets |}))).

(** What the parsing loop of [parse_body] makes of a message. *)
Definition parsed (this : message) : message :=
  snd (parse_payloads (ext := codec) (S (length (snd (parser this)))) this
         (first_payload this)).

(** A message to send, with its payloads added in the given order. *)
Definition to_send (x : exchange_type_t) (request : bool)
    (types : list payload_type_t) : message :=
  fold_left add_payload (map (fun t => payload_of t []) types)
    (set_request
       (set_exchange_type (message_create (ext := codec)) x) request).

(** The codec with another Encryption payload: the integrity check returns
    [mac], and [decrypt] returns [opened] and finds the payloads [inner]. *)
Definition envelope (mac opened : status_t) (inner : list payload)
  : @collaborators unit unit octet_parser chunk_t :=
  {| parser_create := parser_create (collaborators := codec);
     reset_context := reset_context (collaborators := codec);
     parse_ike_header := read_header;
     parse_payload := read_payload;
     parser_left := parser_left (collaborators := codec);
     parse_payload_advances := parse_payload_advances (collaborators := codec);
     ike_header_verify := fun _ => SUCCESS;
     payload_verify := fun _ => SUCCESS;
     generator_create := generator_create (collaborators := codec);
     generate_ike_header := generate_ike_header (collaborators := codec);
     generate_payload := generate_payload (collaborators := codec);
     write_to_chunk := fun g => g;
     encrypt := fun x => (SUCCESS, x);
     build_signature := fun _ d => (SUCCESS, d);
     verify_signature := fun _ _ => mac;
     decrypt := fun x =>
       (opened,
        {| get_type := get_type x; get_next_type := get_next_type x;
           body := body x; transforms := transforms x;
           inner_payloads := inner |}) |}.

(** A message to send with both endpoints and an IKE SA id assigned. *)
Definition ready (this : message) : message :=
  set_ike_sa_id
    (set_destination (set_source this (Some tt)) (Some tt))
    {| initiator_spi := 1; responder_spi := 0; is_initiator := true |}.

(** The message after [generate]. *)
Definition generated (this : message) : message :=
  match generate (ext := codec) this tt tt with
  | Returns (_, this', _) => this'
  | Undefined _ => this
  end.


End Plain.

(** * Properties *)

Section Properties.

Context {host_t crypter_t signer_t parser_t generator_t : Type}.
Context {ext : @collaborators crypter_t signer_t parser_t generator_t}.

Abbreviation payload_t := (@payload_t crypter_t signer_t).
Abbreviation private_message_t :=
  (@private_message_t host_t crypter_t signer_t parser_t).

Implicit Types (this : private_message_t) (l : list payload_t)
  (t : payload_type_t).

(** ** Rule lookup *)

Lemma get_message_rule_found this status message_rule :
  get_message_rule this = (status, Some message_rule) ->
  status = SUCCESS /\ In message_rule message_rules
  /\ rule_exchange_type message_rule = exchange_type this
  /\ rule_is_request message_rule = is_request this.
Proof.
  unfold get_message_rule, message_rules. cbn.
  destruct (exchange_type this), (is_request this); cbn; intros H;
    inversion H; subst; cbn; intuition.
Qed.

Lemma get_message_rule_none this status :
  get_message_rule this = (status, None) ->
  status = NOT_FOUND /\ ~ In (exchange_type this, is_request this) ruled.
Proof.
  unfold get_message_rule, message_rules, ruled. cbn.
  destruct (exchange_type this), (is_request this); cbn; intros H;
    inversion H; subst; split; trivial; intuition discriminate.
Qed.

Lemma get_message_rule_unruled this :
  ~ In (exchange_type this, is_request this) ruled ->
  get_message_rule this = (NOT_FOUND, None).
Proof.
  unfold get_message_rule, message_rules, ruled. cbn.
  destruct (exchange_type this), (is_request this); cbn; intros H;
    trivial; exfalso; apply H; intuition.
Qed.

Lemma message_rules_bounds message_rule e :
  In message_rule message_rules ->
  In e (supported_payloads message_rule) ->
  0 <= max_occurence e < 2 ^ size_t_bits - 1.
Proof.
  unfold message_rules. cbn.
  intros [<-|[<-|[<-|[<-|[]]]]]; cbn; intros H;
    repeat (destruct H as [<-|H]; [cbn; lia|]); destruct H.
Qed.

(** ** Counting *)

Lemma occurrences_nonneg t l : 0 <= occurrences t l.
Proof. unfold occurrences. lia. Qed.

Lemma occurrences_cons t p l :
  occurrences t (p :: l) =
  (if payload_type_eqb (get_type p) t then 1 else 0) + occurrences t l.
Proof.
  unfold occurrences. cbn [filter].
  destruct (payload_type_eqb (get_type p) t); cbn [length]; lia.
Qed.

(** The counting loop against the count: it leaves early exactly when the
    count passes [max], and the counter does not wrap. *)
Lemma count_payloads_occurrences t max l found :
  0 <= found <= max -> max < 2 ^ size_t_bits - 1 ->
  count_payloads t max l found =
  if max <? found + occurrences t l
  then None
  else Some (found + occurrences t l).
Proof.
  revert found. induction l as [|p l IH]; intros found Hf Hm.
  - cbn. unfold occurrences. cbn.
    rewrite Z.add_0_r. destruct (Z.ltb_spec max found); [lia|reflexivity].
  - cbn [count_payloads]. rewrite occurrences_cons.
    pose proof (occurrences_nonneg t l) as Hocc.
    destruct (payload_type_eqb (get_type p) t).
    + assert (Hincr : size_t_incr found = found + 1).
      { unfold size_t_incr. apply Z.mod_small. lia. }
      rewrite Hincr.
      destruct (Z.ltb_spec max (found + 1)).
      * destruct (Z.ltb_spec max (found + (1 + occurrences t l))); [reflexivity|lia].
      * rewrite IH by lia.
        replace (found + 1 + occurrences t l)
          with (found + (1 + occurrences t l)) by lia.
        reflexivity.
    + rewrite IH by lia. reflexivity.
Qed.

Lemma verify_entries_status entries l :
  verify_entries entries l = SUCCESS \/ verify_entries entries l = NOT_SUPPORTED.
Proof.
  induction entries as [|e entries IH]; cbn; [now left|].
  destruct (count_payloads _ _ _ _); [|now right].
  destruct (_ <? _); [now right|exact IH].
Qed.

Lemma verify_entries_not_supported entries l :
  (forall e, In e entries -> 0 <= max_occurence e < 2 ^ size_t_bits - 1) ->
  verify_entries entries l = NOT_SUPPORTED <->
  exists e, In e entries /\ out_of_bounds l e.
Proof.
  induction entries as [|e entries IH]; intros Hb.
  - cbn. split; [discriminate|intros [e [[] _]]].
  - cbn [verify_entries].
    rewrite count_payloads_occurrences
      by (pose proof (Hb e (or_introl eq_refl)); lia).
    rewrite Z.add_0_l.
    assert (IH' := IH (fun e' H => Hb e' (or_intror H))).
    destruct (Z.ltb_spec (max_occurence e) (occurrences (payload_type e) l)).
    + split; [|reflexivity].
      intros _. exists e. split; [now left|now left].
    + destruct (Z.ltb_spec (occurrences (payload_type e) l) (min_occurence e)).
      * split; [|reflexivity].
        intros _. exists e. split; [now left|now right].
      * rewrite IH'. split.
        -- intros [e' [Hin Ho]]. exists e'. split; [now right|exact Ho].
        -- intros [e' [[<-|Hin] Ho]].
           ++ destruct Ho; lia.
           ++ exists e'. split; assumption.
Qed.

Lemma occurrences_Permutation t l l' :
  Permutation l l' -> occurrences t l = occurrences t l'.
Proof.
  intros H. unfold occurrences. f_equal.
  apply Permutation_length.
  induction H; cbn.
  - constructor.
  - destruct (payload_type_eqb (get_type x) t); [constructor|]; assumption.
  - destruct (payload_type_eqb (get_type x) t),
             (payload_type_eqb (get_type y) t);
      try constructor; apply Permutation_refl.
  - eapply Permutation_trans; eassumption.
Qed.


Lemma verify_entries_Permutation entries l l' :
  (forall e, In e entries -> 0 <= max_occurence e < 2 ^ size_t_bits - 1) ->
  Permutation l l' ->
  verify_entries entries l = verify_entries entries l'.
Proof.
  intros Hb HP. induction entries as [|e entries IH]; [reflexivity|].
  cbn [verify_entries].
  rewrite !count_payloads_occurrences
    by (pose proof (Hb e (or_introl eq_refl)); lia).
  rewrite (occurrences_Permutation (payload_type e) l l' HP).
  rewrite IH by (intros e' H; apply Hb; now right).
  reflexivity.
Qed.

(** ** [verify] *)

(** C5: with a rule for the message, [verify] returns [NOT_SUPPORTED] exactly
    when some entry of the rule has a payload count above [max_occurence] or
    below [min_occurence], and [SUCCESS] when every count lies within its
    bounds; without a rule it returns the [NOT_FOUND] of the lookup. *)
Theorem verify_occurrence_bounds this :
  (forall status,
     get_message_rule this = (status, None) -> verify this = NOT_FOUND)
  /\ (forall status message_rule,
        get_message_rule this = (status, Some message_rule) ->
        (verify this = NOT_SUPPORTED <->
         exists e, In e (supported_payloads message_rule)
           /\ (max_occurence e < occurrences (payload_type e) (payloads this)
               \/ occurrences (payload_type e) (payloads this)
                  < min_occurence e))
        /\ ((forall e, In e (supported_payloads message_rule) ->
               min_occurence e <= occurrences (payload_type e) (payloads this)
                 <= max_occurence e) ->
            verify this = SUCCESS)).
Proof.
  unfold verify. split.
  - intros status E. rewrite E.
    apply get_message_rule_none in E as [-> _]. reflexivity.
  - intros status message_rule E. rewrite E.
    apply get_message_rule_found in E as (_ & Hin & _).
    pose proof (verify_entries_not_supported (supported_payloads message_rule)
                  (payloads this)
                  (fun e => message_rules_bounds message_rule e Hin)) as Hns.
    split; [exact Hns|].
    intros Hall.
    destruct (verify_entries_status (supported_payloads message_rule)
                (payloads this)) as [H|H]; [exact H|].
    apply Hns in H as (e & He & Ho).
    specialize (Hall e He). destruct Ho; lia.
Qed.

(** C8: [verify] gives the same status on every reordering of the payload
    list. *)
Theorem verify_permutation this l' :
  Permutation (payloads this) l' ->
  verify (with_payloads this l') = verify this.
Proof.
  intros HP. unfold verify.
  change (get_message_rule (with_payloads this l')) with (get_message_rule this).
  destruct (get_message_rule this) as [status [message_rule|]] eqn:E;
    [|reflexivity].
  apply get_message_rule_found in E as (_ & Hin & _).
  cbn [payloads with_payloads]. symmetry.
  apply verify_entries_Permutation; [|exact HP].
  intros e. apply (message_rules_bounds message_rule e Hin).
Qed.


(** ** [add_payload] *)

Lemma linked_cons p l :
  linked (p :: l) <-> get_next_type p = type_at l 0 /\ linked l.
Proof.
  unfold linked. split.
  - intros H. split.
    + apply (H O p). reflexivity.
    + intros i q Hq. apply (H (S i) q). exact Hq.
  - intros [Hp Hl] [|i] q Hq; cbn in Hq.
    + injection Hq as <-. exact Hp.
    + apply (Hl i q Hq).
Qed.

Lemma linked_nil : linked (@nil payload_t).
Proof. intros [|i] q Hq; discriminate. Qed.

Lemma type_at_update_last t p l x :
  type_at
    (update_last (fun last_payload => set_next_type last_payload t) (p :: l)
       ++ [x]) 0
  = get_type p.
Proof. destruct l; reflexivity. Qed.

Lemma linked_insert_last l p :
  linked l ->
  linked
    (insert_last
       (update_last
          (fun last_payload => set_next_type last_payload (get_type p)) l)
       (set_next_type p NO_PAYLOAD)).
Proof.
  unfold insert_last.
  induction l as [|x l IH]; intros H.
  - cbn. apply linked_cons. split; [reflexivity|apply linked_nil].
  - apply linked_cons in H as [Hx Hl].
    destruct l as [|y l].
    + cbn. apply linked_cons. split; [reflexivity|].
      apply linked_cons. split; [reflexivity|apply linked_nil].
    + change (update_last ?f (x :: y :: l) ++ ?r)
        with (x :: (update_last f (y :: l) ++ r)).
      apply linked_cons. split.
      * rewrite type_at_update_last. exact Hx.
      * apply IH. exact Hl.
Qed.

Lemma add_payload_preserves_chain this p :
  next_type_chain this -> next_type_chain (add_payload this p).
Proof.
  intros [Hfirst Hlinked]. unfold add_payload, get_count.
  destruct (payloads this) as [|x l] eqn:E.
  - cbn. rewrite E. split; [reflexivity|].
    apply linked_cons. split; [reflexivity|apply linked_nil].
  - replace (0 <? Z.of_nat (length (x :: l))) with true
      by (symmetry; apply Z.ltb_lt; cbn [length]; lia).
    unfold next_type_chain. cbn [payloads first_payload with_payloads]. split.
    + unfold insert_last. rewrite type_at_update_last. exact Hfirst.
    + apply linked_insert_last. exact Hlinked.
Qed.

(** C7: the next-type chain (invariant 1 of section 8) holds after any
    sequence of [add_payload] calls on a message on which it holds, such as
    a new one: [first_payload] is the type of the first payload or
    [NO_PAYLOAD], every link is the type of the successor, the last link is
    [NO_PAYLOAD]. *)
Theorem add_payload_next_type_chain this (added : list payload_t) :
  next_type_chain this ->
  next_type_chain (fold_left add_payload added this).
Proof.
  revert this. induction added as [|p added IH]; intros this H.
  - exact H.
  - cbn [fold_left]. apply IH. apply add_payload_preserves_chain. exact H.
Qed.

Lemma message_create_chain (received : option (@packet_t host_t)) :
  next_type_chain (message_create_from_packet received : private_message_t).
Proof. split; [reflexivity|apply linked_nil]. Qed.


(** ** Construction and [get_ike_sa_id] *)

Lemma run_call_ike_sa_id this (c : @call host_t crypter_t signer_t) :
  ike_sa_id (run_call this c) = ike_sa_id this.
Proof.
  destruct c; try reflexivity.
  cbn. unfold add_payload.
  destruct (0 <? get_count (payloads this)); reflexivity.
Qed.

Lemma run_calls_ike_sa_id (calls : list (@call host_t crypter_t signer_t)) this :
  ike_sa_id (fold_left run_call calls this) = ike_sa_id this.
Proof.
  revert this. induction calls as [|c calls IH]; intros this; [reflexivity|].
  cbn [fold_left]. rewrite IH. apply run_call_ike_sa_id.
Qed.

(** C10: a message from [message_create_from_packet] ([message_create] is the
    case without packet) has exchange type [EXCHANGE_TYPE_UNDEFINED], request
    flag [TRUE], message id 0, first payload [NO_PAYLOAD] and no IKE SA id;
    on it, and after any calls other than [set_ike_sa_id] and parsing,
    [get_ike_sa_id] returns [FAILED] and leaves its output as it was. *)
Theorem message_create_initial_state (received : option (@packet_t host_t))
    (calls : list (@call host_t crypter_t signer_t))
    (out : option ike_sa_id_t) :
  let created : private_message_t := message_create_from_packet received in
  exchange_type created = EXCHANGE_TYPE_UNDEFINED
  /\ is_request created = true
  /\ message_id created = 0
  /\ first_payload created = NO_PAYLOAD
  /\ ike_sa_id created = None
  /\ get_ike_sa_id created out = (FAILED, out)
  /\ get_ike_sa_id (fold_left run_call calls created) out = (FAILED, out).
Proof.
  cbn zeta. repeat (split; [reflexivity|]).
  unfold get_ike_sa_id. rewrite run_calls_ike_sa_id. reflexivity.
Qed.

(** ** The encrypt pass and [generate] *)

(** The encrypt pass never builds an Encryption payload: the only way to a
    non-NULL [encryption_payload] lies behind the [break]. *)
Lemma encrypt_payloads_loop_no_envelope message_rule
    (all_payloads kept : list payload_t) :
  snd (encrypt_payloads_loop message_rule all_payloads kept None) = None.
Proof.
  revert kept. induction all_payloads as [|p all_payloads IH]; intros kept.
  - reflexivity.
  - cbn [encrypt_payloads_loop].
    destruct (get_supported_payload_entry message_rule (get_type p))
      as [[] [e|]]; try apply IH.
    destruct (encrypted e); [reflexivity|apply IH].
Qed.

(** C1: an IKE_AUTH response holding ID_r, AUTH, SA, TSi and TSr.  The
    encrypt pass returns [SUCCESS] and leaves the message without any payload:
    no Encryption payload, and none of the five.  [generate] then emits the
    header alone, destroys it, and asks the destroyed header for its type:
    it does not return. *)
Theorem generate_ike_auth_response_loses_payloads (src dst : host_t)
    (id : ike_sa_id_t) (crypter : crypter_t) (signer : signer_t)
    (c1 c2 c3 c4 c5 : chunk_t) :
  let this : private_message_t :=
    fold_left add_payload
      [ payload_of ID_RESPONDER c1; payload_of AUTHENTICATION c2;
        payload_of SECURITY_ASSOCIATION c3;
        payload_of TRAFFIC_SELECTOR_INITIATOR c4;
        payload_of TRAFFIC_SELECTOR_RESPONDER c5 ]
      (set_ike_sa_id
         (set_destination
            (set_source
               (set_request (set_exchange_type message_create IKE_AUTH) false)
               (Some src))
            (Some dst))
         id) in
  map get_type (get_payload_iterator this)
    = [ ID_RESPONDER; AUTHENTICATION; SECURITY_ASSOCIATION;
        TRAFFIC_SELECTOR_INITIATOR; TRAFFIC_SELECTOR_RESPONDER ]
  /\ encrypt_payloads this crypter signer = (SUCCESS, with_payloads this [])
  /\ generate this crypter signer = Undefined UseAfterFree.
Proof.
  cbn zeta. split; [|split]; vm_compute; reflexivity.
Qed.

(** X13: the two preconditions that [generate] tests: when the exchange
    type is undefined or an endpoint is not set, it returns [INVALID_STATE],
    hands out no packet and leaves the message as it is. *)
Lemma generate_tested_preconditions this (crypter : crypter_t)
    (signer : signer_t) :
  exchange_type this = EXCHANGE_TYPE_UNDEFINED
  \/ source (packet this) = None \/ destination (packet this) = None ->
  generate this crypter signer = Returns (INVALID_STATE, this, None).
Proof.
  unfold generate. intros [H|[H|H]]; rewrite H.
  - reflexivity.
  - destruct (exchange_type_eqb _ _); reflexivity.
  - destruct (exchange_type_eqb _ _); [reflexivity|].
    destruct (source (packet this)); reflexivity.
Qed.

(** C6: with an exchange type and both endpoints set but no IKE SA id
    assigned, [generate] does not return [INVALID_STATE]: for IKE_SA_INIT it
    goes on to call [is_initiator] through the NULL [ike_sa_id]; for an
    exchange type without rule it returns the [NOT_FOUND] of the encrypt
    pass. *)
Theorem generate_without_ike_sa_id (src dst : host_t) (crypter : crypter_t)
    (signer : signer_t) :
  let endpoints (x : exchange_type_t) : private_message_t :=
    set_destination
      (set_source (set_exchange_type message_create x) (Some src)) (Some dst) in
  ike_sa_id (endpoints IKE_SA_INIT) = None
  /\ generate (endpoints IKE_SA_INIT) crypter signer = Undefined NullDereference
  /\ generate (endpoints CREATE_CHILD_SA) crypter signer
     = Returns (NOT_FOUND, endpoints CREATE_CHILD_SA, None).
Proof. cbn zeta. repeat split; vm_compute; reflexivity. Qed.


(** ** [parse_body] *)

Lemma same_metadata_refl this : same_metadata this this.
Proof. repeat split. Qed.

Lemma same_metadata_trans (a b c : private_message_t) :
  same_metadata a b -> same_metadata b c -> same_metadata a c.
Proof.
  unfold same_metadata.
  intros (?&?&?&?&?&?&?&?) (?&?&?&?&?&?&?&?).
  repeat split; congruence.
Qed.

Lemma get_message_rule_same_metadata (a b : private_message_t) :
  same_metadata a b -> get_message_rule b = get_message_rule a.
Proof.
  intros (_&_&_&Hx&Hr&_). unfold get_message_rule, message_rules. cbn.
  rewrite Hx, Hr. reflexivity.
Qed.

(** More fuel than the parser has octets left is enough: the result of the
    parsing loop does not depend on it. *)
Lemma parse_payloads_fuel (fuel fuel' : nat) this t :
  (parser_left (parser this) < fuel)%nat ->
  (parser_left (parser this) < fuel')%nat ->
  parse_payloads fuel this t = parse_payloads fuel' this t.
Proof.
  revert fuel' this t.
  induction fuel as [|fuel IH]; intros fuel' this t Hf Hf'; [lia|].
  destruct fuel' as [|fuel']; [lia|].
  cbn [parse_payloads].
  destruct (payload_type_eqb t NO_PAYLOAD); [reflexivity|].
  destruct (parse_payload (parser this) t) as [[status p] cursor] eqn:E.
  destruct (status_eq_dec status SUCCESS) as [->|Hs].
  - cbn [status_eqb negb].
    destruct (negb (status_eqb (payload_verify p) SUCCESS)); [reflexivity|].
    apply parse_payload_advances in E.
    apply IH; cbn [parser with_payloads with_parser]; lia.
  - unfold status_eqb. destruct (status_eq_dec status SUCCESS); [contradiction|].
    reflexivity.
Qed.

(** The parsing loop appends to the payload list and moves the parser; it
    touches nothing else. *)
Lemma parse_payloads_appends (fuel : nat) this t status this' :
  parse_payloads fuel this t = (status, this') ->
  same_metadata this this'
  /\ exists parsed,
       payloads this' = payloads this ++ parsed
       /\ Forall (fun p => payload_verify p = SUCCESS) parsed.
Proof.
  revert this t. induction fuel as [|fuel IH]; intros this t H.
  - injection H as _ <-. split; [apply same_metadata_refl|].
    exists []. rewrite app_nil_r. split; [reflexivity|constructor].
  - cbn [parse_payloads] in H.
    destruct (payload_type_eqb t NO_PAYLOAD).
    { injection H as _ <-. split; [apply same_metadata_refl|].
      exists []. rewrite app_nil_r. split; [reflexivity|constructor]. }
    destruct (parse_payload (parser this) t) as [[st p] cursor].
    destruct (negb (status_eqb st SUCCESS)).
    { injection H as _ <-. split; [repeat split|].
      exists []. cbn. rewrite app_nil_r. split; [reflexivity|constructor]. }
    destruct (status_eq_dec (payload_verify p) SUCCESS) as [Hv|Hv].
    + unfold status_eqb in H.
      destruct (status_eq_dec (payload_verify p) SUCCESS); [|contradiction].
      cbn [negb] in H. apply IH in H as [Hm (parsed & Hp & Hall)].
      split.
      * eapply same_metadata_trans; [|exact Hm]. repeat split.
      * exists (p :: parsed). split; [|constructor; assumption].
        rewrite Hp. cbn. unfold insert_last. rewrite <- app_assoc. reflexivity.
    + unfold status_eqb in H.
      destruct (status_eq_dec (payload_verify p) SUCCESS); [contradiction|].
      cbn [negb] in H. injection H as _ <-. split; [repeat split|].
      exists []. cbn. rewrite app_nil_r. split; [reflexivity|constructor].
Qed.



(** The decrypt pass up to the first payload that it does not pass over:
    the payloads before it leave neither the list nor the flag changed. *)
Lemma decrypt_payloads_loop_passes message_rule (crypter : crypter_t)
    (signer : signer_t) this (before rest : list payload_t) n :
  Forall (passes_unprotected message_rule) before ->
  decrypt_payloads_loop message_rule crypter signer this (before ++ rest)
    n false
  = decrypt_payloads_loop message_rule crypter signer this rest
      (n + get_count before) false.
Proof.
  intros H. revert n. induction H as [|p before Hp _ IH]; intros n.
  - cbn. unfold get_count. cbn. rewrite Z.add_0_r. reflexivity.
  - destruct Hp as [Ht (e & He & Henc)].
    cbn [app decrypt_payloads_loop].
    unfold payload_type_eqb at 1.
    destruct (payload_type_eq_dec (get_type p) ENCRYPTED); [contradiction|].
    rewrite He, Henc. cbn [Bool.eqb negb].
    rewrite IH. f_equal. unfold get_count. cbn [length]. lia.
Qed.

(** C4: when the decrypt pass of [parse_body] comes to an Encryption payload
    (every payload before it has passed) that is not the last of the list,
    or the rule of the message does not allow encrypted content, [parse_body]
    returns [FAILED]. *)
Theorem parse_body_encryption_payload_misplaced this (crypter : crypter_t)
    (signer : signer_t) (parsed : private_message_t) message_rule
    (before : list payload_t) (e : payload_t) (after : list payload_t) :
  parse_payloads (S (parser_left (parser this))) this (first_payload this)
    = (SUCCESS, parsed) ->
  get_message_rule parsed = (SUCCESS, Some message_rule) ->
  payloads parsed = before ++ e :: after ->
  Forall (passes_unprotected message_rule) before ->
  get_type e = ENCRYPTED ->
  after <> [] \/ encrypted_content message_rule = false ->
  parse_body this crypter signer = Returns (FAILED, parsed).
Proof.
  intros Hparse Hrule Hlist Hbefore He Hbad.
  unfold parse_body. rewrite Hparse. cbn [status_eqb negb].
  unfold decrypt_payloads. rewrite Hrule, Hlist.
  rewrite decrypt_payloads_loop_passes by exact Hbefore.
  cbn [decrypt_payloads_loop]. rewrite He.
  change (payload_type_eqb ENCRYPTED ENCRYPTED) with true. cbv iota.
  destruct (encrypted_content message_rule) eqn:Hc; cbn [negb]; [|reflexivity].
  destruct Hbad as [Hafter|]; [|discriminate].
  assert (Hn : (1 + get_count before =? get_count (payloads parsed)) = false).
  { apply Z.eqb_neq. rewrite Hlist. unfold get_count. rewrite length_app.
    destruct after; [contradiction|]. cbn [length]. lia. }
  rewrite Hn. reflexivity.
Qed.

(** C2: a payload outside of any envelope whose rule entry says [encrypted]:
    when the decrypt pass of [parse_body] comes to it, [parse_body] returns
    [SUCCESS] (the status of the entry lookup), and neither the payloads
    after it nor the occurrence counts are checked. *)
Theorem parse_body_accepts_unprotected_payload this (crypter : crypter_t)
    (signer : signer_t) (parsed : private_message_t) message_rule
    (before : list payload_t) (p : payload_t) (after : list payload_t)
    (payload_entry : supported_payload_entry_t) :
  parse_payloads (S (parser_left (parser this))) this (first_payload this)
    = (SUCCESS, parsed) ->
  get_message_rule parsed = (SUCCESS, Some message_rule) ->
  payloads parsed = before ++ p :: after ->
  Forall (passes_unprotected message_rule) before ->
  get_type p <> ENCRYPTED ->
  get_supported_payload_entry message_rule (get_type p)
    = (SUCCESS, Some payload_entry) ->
  encrypted payload_entry = true ->
  parse_body this crypter signer = Returns (SUCCESS, parsed).
Proof.
  intros Hparse Hrule Hlist Hbefore Hp Hentry Henc.
  unfold parse_body. rewrite Hparse. cbn [status_eqb negb].
  unfold decrypt_payloads. rewrite Hrule, Hlist.
  rewrite decrypt_payloads_loop_passes by exact Hbefore.
  cbn [decrypt_payloads_loop].
  unfold payload_type_eqb at 1.
  destruct (payload_type_eq_dec (get_type p) ENCRYPTED); [contradiction|].
  rewrite Hentry, Henc. reflexivity.
Qed.




(** C9, as the code has it: the rule table has exactly the four records of
    IKE_SA_INIT and IKE_AUTH, without encrypted content for the first and
    with it for the second exchange; for a message of any other (exchange
    type, direction) the lookup returns [NOT_FOUND], and so does [verify];
    [generate] returns [INVALID_STATE] when the exchange type is undefined
    or an endpoint is not set and [NOT_FOUND] otherwise; [parse_body]
    returns the error of the payload that fails to parse or to verify, and
    [NOT_FOUND] when there is none. *)
Theorem message_rules_coverage :
  map (fun r => (rule_exchange_type r, rule_is_request r, encrypted_content r))
    message_rules
  = [ (IKE_SA_INIT, true, false); (IKE_SA_INIT, false, false);
      (IKE_AUTH, true, true); (IKE_AUTH, false, true) ]
  /\ forall this (crypter : crypter_t) (signer : signer_t),
       ~ In (exchange_type this, is_request this) ruled ->
       get_message_rule this = (NOT_FOUND, None)
       /\ verify this = NOT_FOUND
       /\ generate this crypter signer
          = Returns
              (if exchange_type_eqb (exchange_type this) EXCHANGE_TYPE_UNDEFINED
                  || (is_null (source (packet this))
                      || is_null (destination (packet this)))
               then INVALID_STATE
               else NOT_FOUND,
               this, None)
       /\ parse_body this crypter signer
          = let (status, parsed) :=
              parse_payloads (S (parser_left (parser this))) this
                (first_payload this) in
            Returns
              (if status_eqb status SUCCESS then NOT_FOUND else status, parsed).
Proof.
  split; [reflexivity|].
  intros this crypter signer H.
  pose proof (get_message_rule_unruled this H) as Hrule.
  split; [exact Hrule|]. split; [unfold verify; rewrite Hrule; reflexivity|].
  split.
  - unfold generate.
    destruct (exchange_type_eqb (exchange_type this) EXCHANGE_TYPE_UNDEFINED);
      [reflexivity|].
    cbn [orb].
    destruct (is_null (source (packet this)) || is_null (destination (packet this)));
      [reflexivity|].
    unfold encrypt_payloads. rewrite Hrule. reflexivity.
  - unfold parse_body.
    destruct (parse_payloads _ this (first_payload this)) as [st parsed] eqn:E.
    apply parse_payloads_appends in E as [Hm _].
    destruct (status_eqb st SUCCESS); [|reflexivity].
    cbn [negb]. unfold decrypt_payloads.
    rewrite (get_message_rule_same_metadata this parsed Hm), Hrule.
    reflexivity.
Qed.


(** ** Further properties of the rule lookup *)

Lemma get_supported_payload_entry_in_sound entries t status e :
  get_supported_payload_entry_in entries t = (status, Some e) ->
  status = SUCCESS /\ In e entries /\ payload_type e = t.
Proof.
  induction entries as [|x entries IH]; cbn; [discriminate|].
  unfold payload_type_eqb.
  destruct (payload_type_eq_dec (payload_type x) t) as [Ht|Ht].
  - intros H. injection H as <- <-. auto.
  - intros H. apply IH in H as (? & ? & ?). auto.
Qed.

Lemma get_supported_payload_entry_in_none entries t status :
  get_supported_payload_entry_in entries t = (status, None) ->
  status = NOT_FOUND /\ forall e, In e entries -> payload_type e <> t.
Proof.
  induction entries as [|x entries IH]; cbn.
  - intros H. injection H as <-. split; [reflexivity|]. intros e [].
  - unfold payload_type_eqb.
    destruct (payload_type_eq_dec (payload_type x) t) as [Ht|Ht];
      [discriminate|].
    intros H. apply IH in H as [-> Hall]. split; [reflexivity|].
    intros e [<-|He]; [exact Ht|apply Hall, He].
Qed.

Lemma get_supported_payload_entry_in_complete entries t e :
  NoDup (map payload_type entries) ->
  In e entries -> payload_type e = t ->
  get_supported_payload_entry_in entries t = (SUCCESS, Some e).
Proof.
  induction entries as [|x entries IH]; cbn; intros Hnd Hin Ht; [contradiction|].
  inversion Hnd as [|? ? Hx Hnd']; subst.
  unfold payload_type_eqb.
  destruct (payload_type_eq_dec (payload_type x) (payload_type e)) as [Hxe|Hxe].
  - destruct Hin as [->|Hin]; [reflexivity|].
    exfalso. apply Hx. rewrite Hxe. apply in_map, Hin.
  - destruct Hin as [->|Hin]; [contradiction|].
    apply IH; auto.
Qed.

Lemma message_rules_NoDup message_rule :
  In message_rule message_rules ->
  NoDup (map payload_type (supported_payloads message_rule)).
Proof.
  unfold message_rules. cbn.
  intros [<-|[<-|[<-|[<-|[]]]]]; cbn;
    repeat (constructor; [cbn; intuition discriminate|]); constructor.
Qed.

(** X1: in a rule of the table the payload types are distinct, so the
    entry lookup is exact: it returns [SUCCESS] with an entry exactly when
    that entry is the rule's entry for the type, and [NOT_FOUND] with NULL
    exactly when the rule has no entry for the type; there is no third
    result. *)
Theorem get_supported_payload_entry_exact message_rule t :
  In message_rule message_rules ->
  (forall e,
     get_supported_payload_entry message_rule t = (SUCCESS, Some e) <->
     In e (supported_payloads message_rule) /\ payload_type e = t)
  /\ (get_supported_payload_entry message_rule t = (NOT_FOUND, None) <->
      forall e, In e (supported_payloads message_rule) -> payload_type e <> t)
  /\ ((exists e, get_supported_payload_entry message_rule t = (SUCCESS, Some e))
      \/ get_supported_payload_entry message_rule t = (NOT_FOUND, None)).
Proof.
  intros Hin. unfold get_supported_payload_entry.
  pose proof (message_rules_NoDup message_rule Hin) as Hnd.
  split; [|split].
  - intros e. split.
    + intros H. apply get_supported_payload_entry_in_sound in H. tauto.
    + intros [He Ht]. apply get_supported_payload_entry_in_complete; assumption.
  - split.
    + intros H. apply get_supported_payload_entry_in_none in H. tauto.
    + intros Hall.
      destruct (get_supported_payload_entry_in (supported_payloads message_rule) t)
        as [st [e|]] eqn:E.
      * apply get_supported_payload_entry_in_sound in E as (_ & He & Ht).
        exfalso. exact (Hall e He Ht).
      * apply get_supported_payload_entry_in_none in E as [-> _]. reflexivity.
  - destruct (get_supported_payload_entry_in (supported_payloads message_rule) t)
      as [st [e|]] eqn:E.
    + apply get_supported_payload_entry_in_sound in E as H. destruct H as [-> _].
      left. exists e. reflexivity.
    + apply get_supported_payload_entry_in_none in E as [-> _]. now right.
Qed.

(** X2: [get_message_rule] returns [SUCCESS] with a record exactly when that
    record is in the table and has the exchange type and the direction of
    the message. *)
Theorem get_message_rule_exact this message_rule :
  get_message_rule this = (SUCCESS, Some message_rule) <->
  In message_rule message_rules
  /\ rule_exchange_type message_rule = exchange_type this
  /\ rule_is_request message_rule = is_request this.
Proof.
  split.
  - intros H. apply get_message_rule_found in H. tauto.
  - unfold get_message_rule, message_rules. cbn.
    intros ([<-|[<-|[<-|[<-|[]]]]] & Hx & Hr); cbn in Hx, Hr;
      rewrite <- Hx, <- Hr; reflexivity.
Qed.

(** ** Further properties of the accessors *)

Lemma content_update_last t l :
  map content (update_last (fun last_payload => set_next_type last_payload t) l)
  = map content l.
Proof.
  induction l as [|x l IH]; [reflexivity|].
  destruct l as [|y l]; [reflexivity|].
  change (update_last ?f (x :: y :: l)) with (x :: update_last f (y :: l)).
  cbn [map]. rewrite IH. reflexivity.
Qed.

Lemma add_payload_content this p :
  map content (payloads (add_payload this p))
  = map content (payloads this) ++ [content p].
Proof.
  unfold add_payload, insert_last.
  destruct (0 <? get_count (payloads this)); cbn [payloads with_payloads
    with_first_payload]; rewrite map_app; [rewrite content_update_last|];
    reflexivity.
Qed.

(** X3: [add_payload] appends: after any sequence of calls the list holds
    the payloads it held before and then the added ones in the order of the
    calls, each with the type and the content it came with; only next-type
    links are rewritten. *)
Theorem add_payload_appends this (added : list payload_t) :
  map content (payloads (fold_left add_payload added this))
  = map content (payloads this) ++ map content added.
Proof.
  revert this. induction added as [|p added IH]; intros this.
  - cbn. rewrite app_nil_r. reflexivity.
  - cbn [fold_left map]. rewrite IH, add_payload_content, <- app_assoc.
    reflexivity.
Qed.

(** X4: an IKE SA id assigned with [set_ike_sa_id] is what [get_ike_sa_id]
    returns, with [SUCCESS], after any further calls of the other setters
    and of [add_payload]. *)
Theorem get_ike_sa_id_after_set this (id : ike_sa_id_t)
    (calls : list (@call host_t crypter_t signer_t))
    (out : option ike_sa_id_t) :
  get_ike_sa_id (fold_left run_call calls (set_ike_sa_id this id)) out
  = (SUCCESS, Some id).
Proof.
  unfold get_ike_sa_id. rewrite run_calls_ike_sa_id. reflexivity.
Qed.

(** ** Further properties of [verify] *)

(** X5: a message without payloads whose exchange type and direction have a
    rule does not pass [verify]: every rule requires some payload. *)
Theorem verify_empty this :
  In (exchange_type this, is_request this) ruled ->
  payloads this = [] ->
  verify this = NOT_SUPPORTED.
Proof.
  unfold verify, get_message_rule, message_rules, ruled. cbn.
  intros H ->.
  destruct (exchange_type this), (is_request this); cbn in *;
    try reflexivity; exfalso; intuition discriminate.
Qed.

Lemma occurrences_app t l1 l2 :
  occurrences t (l1 ++ l2) = occurrences t l1 + occurrences t l2.
Proof.
  unfold occurrences. rewrite filter_app, length_app. lia.
Qed.

Lemma verify_entries_skip entries l1 p l2 :
  (forall e, In e entries -> 0 <= max_occurence e < 2 ^ size_t_bits - 1) ->
  (forall e, In e entries -> payload_type e <> get_type p) ->
  verify_entries entries (l1 ++ p :: l2) = verify_entries entries (l1 ++ l2).
Proof.
  intros Hb Ht. induction entries as [|e entries IH]; [reflexivity|].
  cbn [verify_entries].
  rewrite !count_payloads_occurrences
    by (pose proof (Hb e (or_introl eq_refl)); lia).
  rewrite !occurrences_app, occurrences_cons.
  destruct (payload_type_eqb (get_type p) (payload_type e)) eqn:E.
  { exfalso. unfold payload_type_eqb in E.
    destruct (payload_type_eq_dec (get_type p) (payload_type e)) as [E'|];
      [|discriminate].
    apply (Ht e (or_introl eq_refl)). symmetry. exact E'. }
  rewrite Z.add_0_l.
  rewrite IH; [reflexivity| |]; intros e' H; [apply Hb|apply Ht]; now right.
Qed.

(** X6: [verify] does not look at payloads of a type that the rule has no
    entry for: with or without such a payload, wherever it stands in the
    list, the status is the same. *)
Theorem verify_ignores_unlisted this status message_rule
    (l1 : list payload_t) (p : payload_t) (l2 : list payload_t) :
  get_message_rule this = (status, Some message_rule) ->
  get_supported_payload_entry message_rule (get_type p) = (NOT_FOUND, None) ->
  verify (with_payloads this (l1 ++ p :: l2))
  = verify (with_payloads this (l1 ++ l2)).
Proof.
  intros Hrule Hp. unfold verify.
  change (get_message_rule (with_payloads this ?l)) with (get_message_rule this).
  rewrite Hrule. cbn [payloads with_payloads].
  apply get_message_rule_found in Hrule as (_ & Hin & _).
  apply get_supported_payload_entry_in_none in Hp as [_ Hp].
  apply verify_entries_skip; [|exact Hp].
  intros e. apply (message_rules_bounds message_rule e Hin).
Qed.

(** ** Further properties of the encrypt pass *)

Lemma with_payloads_same this : with_payloads this (payloads this) = this.
Proof. destruct this. reflexivity. Qed.

(** The second loop of the pass stops at the first payload that the rule
    lists as one to encrypt, and keeps what came before it. *)
Lemma encrypt_payloads_loop_cut message_rule (all_payloads kept : list payload_t) :
  exists passed dropped,
    all_payloads = passed ++ dropped
    /\ encrypt_payloads_loop message_rule all_payloads kept None
       = (kept ++ passed, None)
    /\ Forall (fun p => ~ listed_encrypted message_rule p) passed
    /\ match dropped with
       | [] => True
       | p :: _ => listed_encrypted message_rule p
       end.
Proof.
  revert kept. induction all_payloads as [|p all_payloads IH]; intros kept.
  - exists [], []. rewrite !app_nil_r. repeat split. constructor.
  - cbn [encrypt_payloads_loop].
    destruct (get_supported_payload_entry message_rule (get_type p))
      as [st [e|]] eqn:E.
    + destruct (status_eq_dec st SUCCESS) as [->|Hst].
      * destruct (encrypted e) eqn:Henc.
        -- exists [], (p :: all_payloads). rewrite app_nil_r.
           repeat split; [constructor|]. exists e. split; assumption.
        -- destruct (IH (insert_last kept p)) as (passed & dropped & -> & Hl & Hp & Hd).
           exists (p :: passed), dropped. rewrite Hl. unfold insert_last.
           rewrite <- app_assoc. repeat split; [|exact Hd].
           constructor; [|exact Hp].
           intros (e' & He' & Henc'). rewrite E in He'. congruence.
      * assert (Hnot : ~ listed_encrypted message_rule p).
        { intros (e' & He' & _). rewrite E in He'. congruence. }
        destruct (IH (insert_last kept p)) as (passed & dropped & -> & Hl & Hp & Hd).
        exists (p :: passed), dropped. unfold insert_last in Hl.
        rewrite <- app_assoc in Hl. cbn [app] in Hl.
        repeat split; [|constructor; assumption|exact Hd].
        destruct st; try exact Hl. contradiction.
    + assert (Hnot : ~ listed_encrypted message_rule p).
      { intros (e' & He' & _). rewrite E in He'. congruence. }
      destruct (IH (insert_last kept p)) as (passed & dropped & -> & Hl & Hp & Hd).
      exists (p :: passed), dropped. unfold insert_last in Hl.
      rewrite <- app_assoc in Hl. cbn [app] in Hl.
      repeat split; [|constructor; assumption|exact Hd].
      destruct st; exact Hl.
Qed.

Lemma encrypt_payloads_shape this (crypter : crypter_t) (signer : signer_t) :
  exists kept dropped,
    payloads this = kept ++ dropped
    /\ encrypt_payloads this crypter signer
       = (fst (get_message_rule this), with_payloads this kept)
    /\ forall message_rule,
         get_message_rule this = (SUCCESS, Some message_rule) ->
         encrypted_content message_rule = true ->
         Forall (fun p => ~ listed_encrypted message_rule p) kept
         /\ match dropped with
            | [] => True
            | p :: _ => listed_encrypted message_rule p
            end.
Proof.
  unfold encrypt_payloads.
  destruct (get_message_rule this) as [st [message_rule|]] eqn:E.
  - apply get_message_rule_found in E as H. destruct H as [-> _].
    destruct (encrypted_content message_rule) eqn:Hc; cbn [negb fst].
    + destruct (encrypt_payloads_loop_cut message_rule (payloads this) [])
        as (passed & dropped & Hl & Hloop & Hp & Hd).
      exists passed, dropped. rewrite Hloop. cbn [app].
      split; [exact Hl|]. split; [reflexivity|].
      intros r Hr _. injection Hr as <-. split; assumption.
    + exists (payloads this), []. rewrite app_nil_r, with_payloads_same.
      split; [reflexivity|]. split; [reflexivity|].
      intros r Hr Hr'. injection Hr as <-. congruence.
  - exists (payloads this), []. rewrite app_nil_r, with_payloads_same.
    split; [reflexivity|]. split; [reflexivity|].
    intros r Hr. discriminate Hr.
Qed.

(** X7: the encrypt pass returns the status of the rule lookup ([SUCCESS] or
    [NOT_FOUND]), changes nothing of the message but the payload list, and
    leaves of that list a prefix: it adds no payload, no Encryption payload
    either, and reorders none. *)
Theorem encrypt_payloads_keeps_prefix this (crypter : crypter_t)
    (signer : signer_t) :
  let result := encrypt_payloads this crypter signer in
  fst result = fst (get_message_rule this)
  /\ (fst result = SUCCESS \/ fst result = NOT_FOUND)
  /\ snd result = with_payloads this (payloads (snd result))
  /\ exists dropped, payloads this = payloads (snd result) ++ dropped.
Proof.
  cbn zeta.
  destruct (encrypt_payloads_shape this crypter signer)
    as (kept & dropped & Hl & -> & _).
  cbn [fst snd payloads with_payloads].
  split; [reflexivity|]. split.
  - destruct (get_message_rule this) as [st [message_rule|]] eqn:E.
    + apply get_message_rule_found in E as [-> _]. now left.
    + apply get_message_rule_none in E as [-> _]. now right.
  - split; [reflexivity|]. exists dropped. exact Hl.
Qed.

(** X8: under a rule with encrypted content the encrypt pass cuts the list
    at the first payload that the rule lists as one to encrypt: the payloads
    before it stay, that payload and all payloads after it are gone, and
    the status is [SUCCESS]. *)
Theorem encrypt_payloads_cut this (crypter : crypter_t) (signer : signer_t)
    message_rule :
  get_message_rule this = (SUCCESS, Some message_rule) ->
  encrypted_content message_rule = true ->
  exists kept dropped,
    payloads this = kept ++ dropped
    /\ encrypt_payloads this crypter signer = (SUCCESS, with_payloads this kept)
    /\ Forall (fun p => ~ listed_encrypted message_rule p) kept
    /\ match dropped with
       | [] => True
       | p :: _ => listed_encrypted message_rule p
       end.
Proof.
  intros Hrule Hc.
  destruct (encrypt_payloads_shape this crypter signer)
    as (kept & dropped & Hl & Henc & Hcut).
  exists kept, dropped. rewrite Henc, Hrule.
  destruct (Hcut message_rule Hrule Hc) as [Hk Hd].
  repeat split; assumption.
Qed.

(** ** Further properties of [generate] *)

(** The generating loop: it rewrites the links into a chain, leaves the
    payloads otherwise as they are, and feeds them to the generator in the
    order of the list. *)
Lemma generate_payloads_chain (generator : generator_t) (p : payload_t)
    (rest : list payload_t) :
  let result := generate_payloads generator p rest in
  map content (snd result) = map content (p :: rest)
  /\ linked (snd result)
  /\ type_at (snd result) 0 = get_type p
  /\ fst result = fold_left generate_payload (snd result) generator.
Proof.
  cbn zeta. revert generator p.
  induction rest as [|q rest IH]; intros generator p.
  - cbn. repeat split. apply linked_cons. split; [reflexivity|apply linked_nil].
  - cbn [generate_payloads].
    specialize (IH (generate_payload generator (set_next_type p (get_type q))) q).
    destruct (generate_payloads _ q rest) as [g l].
    cbn [fst snd] in *. destruct IH as (Hc & Hl & Ht & Hg).
    repeat split.
    + cbn [map]. rewrite Hc. reflexivity.
    + apply linked_cons. split; [rewrite Ht; reflexivity|exact Hl].
    + exact Hg.
Qed.

Lemma get_last_none {A : Type} (l : list A) : get_last l = None <-> l = [].
Proof.
  split; [|intros ->; reflexivity].
  induction l as [|x l IH]; [reflexivity|].
  destruct l as [|y l]; [discriminate|].
  change (get_last (x :: y :: l)) with (get_last (y :: l)).
  intros H. apply IH in H. discriminate H.
Qed.

(** The ways through [generate]: the two tests, the encrypt pass, the
    NULL [ike_sa_id], and the generation of the payloads [kept] by the
    encrypt pass. *)
Lemma generate_cases this (crypter : crypter_t) (signer : signer_t) :
  exists kept dropped,
    payloads this = kept ++ dropped
    /\ encrypt_payloads this crypter signer
       = (fst (get_message_rule this), with_payloads this kept)
    /\ (((exchange_type this = EXCHANGE_TYPE_UNDEFINED
          \/ source (packet this) = None \/ destination (packet this) = None)
         /\ generate this crypter signer = Returns (INVALID_STATE, this, None))
        \/ (exchange_type this <> EXCHANGE_TYPE_UNDEFINED
            /\ source (packet this) <> None
            /\ destination (packet this) <> None
            /\ ((fst (get_message_rule this) = NOT_FOUND
                 /\ generate this crypter signer
                    = Returns (NOT_FOUND, with_payloads this kept, None))
                \/ (fst (get_message_rule this) = SUCCESS
                    /\ ((ike_sa_id this = None
                         /\ generate this crypter signer
                            = Undefined NullDereference)
                        \/ exists id generated,
                             ike_sa_id this = Some id
                             /\ map content generated = map content kept
                             /\ linked generated
                             /\ let sent d :=
                                  with_data (with_payloads this generated) d in
                                match get_last generated with
                                | Some e =>
                                    if payload_type_eqb (get_type e) ENCRYPTED
                                    then
                                      exists status signed,
                                        build_signature e
                                          (emitted this id generated)
                                        = (status, signed)
                                        /\ generate this crypter signer
                                           = if status_eqb status SUCCESS
                                             then Returns
                                                    (SUCCESS, sent signed,
                                                     Some (packet (sent signed)))
                                             else Returns
                                                    (status, sent signed, None)
                                    else
                                      generate this crypter signer
                                      = Returns
                                          (SUCCESS,
                                           sent (emitted this id generated),
                                           Some (packet
                                                   (sent (emitted this id
                                                            generated))))
                                | None =>
                                    generate this crypter signer
                                    = Undefined UseAfterFree
                                end))))).
Proof.
  destruct (encrypt_payloads_shape this crypter signer)
    as (kept & dropped & Hl & Henc & _).
  exists kept, dropped. split; [exact Hl|]. split; [exact Henc|].
  unfold generate.
  destruct (exchange_type_eq_dec (exchange_type this) EXCHANGE_TYPE_UNDEFINED)
    as [Hx|Hx].
  { left. split; [now left|]. rewrite Hx. reflexivity. }
  assert (Hxb : exchange_type_eqb (exchange_type this) EXCHANGE_TYPE_UNDEFINED
                = false).
  { unfold exchange_type_eqb.
    destruct (exchange_type_eq_dec (exchange_type this) EXCHANGE_TYPE_UNDEFINED);
      [contradiction|reflexivity]. }
  rewrite Hxb.
  destruct (source (packet this)) as [src|] eqn:Hs;
    [|left; split; [right; now left|reflexivity]].
  destruct (destination (packet this)) as [dst|] eqn:Hd;
    [|left; split; [right; now right|reflexivity]].
  cbn [is_null orb]. right.
  split; [exact Hx|]. split; [discriminate|]. split; [discriminate|].
  rewrite Henc.
  destruct (get_message_rule this) as [st [message_rule|]] eqn:E.
  2:{ apply get_message_rule_none in E as [-> _]. left.
      split; reflexivity. }
  apply get_message_rule_found in E as [-> _].
  right. split; [reflexivity|].
  change (negb (status_eqb (fst (SUCCESS, Some message_rule)) SUCCESS))
    with false. cbv iota.
  change (ike_sa_id (with_payloads this kept)) with (ike_sa_id this).
  change (payloads (with_payloads this kept)) with kept.
  destruct (ike_sa_id this) as [id|] eqn:Eid; [|left; now split].
  right.
  destruct kept as [|p rest].
  - exists id, []. split; [reflexivity|]. split; [reflexivity|].
    split; [apply linked_nil|]. reflexivity.
  - pose proof (generate_payloads_chain
                  (generate_ike_header generator_create
                     (header_set_next_type
                        (build_ike_header (with_payloads this (p :: rest)) id)
                        (get_type p))) p rest) as H.
    cbn zeta in H.
    destruct (generate_payloads _ p rest) as [g generated].
    cbn [fst snd] in H. destruct H as (Hc & Hlk & Ht & Hg).
    exists id, generated. split; [reflexivity|]. split; [exact Hc|].
    split; [exact Hlk|]. cbn zeta. unfold emitted. rewrite Ht, Hg.
    destruct (get_last generated) as [e|]; [|reflexivity].
    destruct (payload_type_eqb (get_type e) ENCRYPTED); [|reflexivity].
    cbn [data packet with_data with_packet].
    change (build_ike_header (with_payloads this (p :: rest)) id)
      with (build_ike_header this id).
    destruct (build_signature e _) as [status signed].
    exists status, signed. split; [reflexivity|].
    destruct (status_eqb status SUCCESS); reflexivity.
Qed.

Lemma payloads_restored this (l : list payload_t) (d : chunk_t) :
  with_data (with_payloads (with_data (with_payloads this l) d) (payloads this))
    (data (packet this))
  = this.
Proof. destruct this as [? ? ? ? ? ? ? [? ? ?] ? ?]. reflexivity. Qed.

(** X9: after a successful [generate] the payload list is a chain again,
    whatever the links were before: every next-type link is the type of
    the successor and the last one is [NO_PAYLOAD].  The list holds a prefix
    of the payloads it held before, with their content. *)
Theorem generate_relinks this (crypter : crypter_t) (signer : signer_t)
    (this' : private_message_t) (generated : @packet_t host_t) :
  generate this crypter signer = Returns (SUCCESS, this', Some generated) ->
  linked (payloads this')
  /\ exists dropped,
       map content (payloads this)
       = map content (payloads this') ++ map content dropped.
Proof.
  intros Hgen.
  destruct (generate_cases this crypter signer)
    as (kept & dropped & Hl & _ &
        [[_ H]|(_ & _ & _ &
                [[_ H]|(_ & [[_ H]|(id & l & Hid & Hc & Hlk & H)])])]);
    try (rewrite H in Hgen; discriminate Hgen).
  assert (Hdrop : map content (payloads this) = map content l ++ map content dropped)
    by (rewrite Hl, map_app, Hc; reflexivity).
  cbn zeta in H.
  destruct (get_last l) as [e|];
    [destruct (payload_type_eqb (get_type e) ENCRYPTED);
     [destruct H as (st & signed & _ & H);
      destruct (status_eqb st SUCCESS)|]|];
    rewrite H in Hgen; try discriminate Hgen;
    injection Hgen as <- _; (split; [exact Hlk|exists dropped; exact Hdrop]).
Qed.

(** X10: the packet of a successful [generate] has the endpoints of the
    message, and its octets are what the generator emits for the header
    (with the type of the first payload as next-type) followed by the
    payloads in list order; when the last payload is an Encryption payload,
    they are what its [build_signature] makes of these octets.  The message
    keeps the same packet. *)
Theorem generate_emits this (crypter : crypter_t) (signer : signer_t)
    (this' : private_message_t) (generated : @packet_t host_t) :
  generate this crypter signer = Returns (SUCCESS, this', Some generated) ->
  generated = packet this'
  /\ source generated = source (packet this)
  /\ destination generated = destination (packet this)
  /\ exists id,
       ike_sa_id this = Some id
       /\ match get_last (payloads this') with
          | Some e =>
              if payload_type_eqb (get_type e) ENCRYPTED
              then build_signature e (emitted this id (payloads this'))
                   = (SUCCESS, data generated)
              else data generated = emitted this id (payloads this')
          | None => data generated = emitted this id (payloads this')
          end.
Proof.
  intros Hgen.
  destruct (generate_cases this crypter signer)
    as (kept & dropped & Hl & _ &
        [[_ H]|(_ & _ & _ &
                [[_ H]|(_ & [[_ H]|(id & l & Hid & Hc & Hlk & H)])])]);
    try (rewrite H in Hgen; discriminate Hgen).
  cbn zeta in H.
  destruct (get_last l) as [e|] eqn:El;
    [|rewrite H in Hgen; discriminate Hgen].
  destruct (payload_type_eqb (get_type e) ENCRYPTED) eqn:Ee.
  - destruct H as (st & signed & Hsig & H).
    unfold status_eqb in H.
    destruct (status_eq_dec st SUCCESS) as [->|_];
      rewrite H in Hgen; [|discriminate Hgen].
    injection Hgen as <- <-. repeat split. exists id. split; [exact Hid|].
    cbn [payloads with_data with_payloads with_packet data packet].
    rewrite El, Ee. exact Hsig.
  - rewrite H in Hgen. injection Hgen as <- <-. repeat split.
    exists id. split; [exact Hid|].
    cbn [payloads with_data with_payloads with_packet data packet].
    rewrite El, Ee. reflexivity.
Qed.

(** X11: [generate] leaves defined behaviour in exactly two cases, both
    behind its two tests and the rule lookup of the encrypt pass: with a
    NULL [ike_sa_id], through which it calls [is_initiator]; and, with an IKE
    SA id assigned, when the encrypt pass leaves no payload, where it asks
    the header for its type after destroying it. *)
Theorem generate_undefined this (crypter : crypter_t) (signer : signer_t)
    (f : fault) :
  generate this crypter signer = Undefined f <->
  exchange_type this <> EXCHANGE_TYPE_UNDEFINED
  /\ source (packet this) <> None
  /\ destination (packet this) <> None
  /\ fst (get_message_rule this) = SUCCESS
  /\ ((ike_sa_id this = None /\ f = NullDereference)
      \/ (ike_sa_id this <> None
          /\ payloads (snd (encrypt_payloads this crypter signer)) = []
          /\ f = UseAfterFree)).
Proof.
  destruct (generate_cases this crypter signer)
    as (kept & dropped & Hl & Henc & Hcases).
  rewrite Henc. cbn [snd payloads with_payloads].
  destruct Hcases
    as [[Hbad H]|(Hx & Hs & Hd &
                  [[Hrule H]|(Hrule & [[Hid H]|(id & l & Hid & Hc & Hlk & H)])])].
  - rewrite H. split; [discriminate|].
    intros (Hx & Hs & Hd & _). destruct Hbad as [?|[?|?]]; contradiction.
  - rewrite H. split; [discriminate|].
    intros (_ & _ & _ & Hr & _). congruence.
  - rewrite H. split.
    + intros E. injection E as <-. repeat split; try assumption.
      left. now split.
    + intros (_ & _ & _ & _ & [[_ ->]|[Hsome _]]);
        [reflexivity|contradiction].
  - cbn zeta in H. destruct (get_last l) as [e|] eqn:El.
    + assert (Hkept : kept <> []).
      { intros ->. cbn in Hc. apply map_eq_nil in Hc. subst l.
        discriminate El. }
      assert (Hret : forall g, generate this crypter signer <> Undefined g).
      { intros g.
        destruct (payload_type_eqb (get_type e) ENCRYPTED);
          [destruct H as (st & signed & _ & H);
           destruct (status_eqb st SUCCESS)|];
          rewrite H; discriminate. }
      split; [intros E; exfalso; exact (Hret f E)|].
      intros (_ & _ & _ & _ & [[Hnone _]|(_ & Hnil & _)]);
        [congruence|contradiction].
    + apply get_last_none in El. subst l.
      assert (Hkept : kept = []).
      { destruct kept; [reflexivity|discriminate Hc]. }
      rewrite H. split.
      * intros E. injection E as <-. repeat split; try assumption.
        right. split; [congruence|]. split; [exact Hkept|reflexivity].
      * intros (_ & _ & _ & _ & [[Hnone _]|(_ & _ & ->)]);
          [congruence|reflexivity].
Qed.

(** X12: when [generate] returns, it hands out a packet exactly when the
    status is [SUCCESS], and it has changed nothing of the message but the
    payload list and the octets of the packet. *)
Theorem generate_returns this (crypter : crypter_t) (signer : signer_t)
    (status : status_t) (this' : private_message_t)
    (generated : option (@packet_t host_t)) :
  generate this crypter signer = Returns (status, this', generated) ->
  (status = SUCCESS <-> generated <> None)
  /\ with_data (with_payloads this' (payloads this)) (data (packet this)) = this.
Proof.
  intros Hgen.
  assert (Hsame : forall l, with_data (with_payloads (with_payloads this l)
                              (payloads this)) (data (packet this)) = this).
  { intros l. destruct this as [? ? ? ? ? ? ? [? ? ?] ? ?]. reflexivity. }
  destruct (generate_cases this crypter signer)
    as (kept & dropped & Hl & _ &
        [[_ H]|(_ & _ & _ &
                [[_ H]|(_ & [[_ H]|(id & l & _ & _ & _ & H)])])]);
    try (rewrite H in Hgen; discriminate Hgen).
  - rewrite H in Hgen. injection Hgen as <- <- <-.
    split; [split; [discriminate|congruence]|].
    rewrite <- (with_payloads_same this) at 1. apply Hsame.
  - rewrite H in Hgen. injection Hgen as <- <- <-.
    split; [split; [discriminate|congruence]|apply Hsame].
  - cbn zeta in H.
    destruct (get_last l) as [e|];
      [|rewrite H in Hgen; discriminate Hgen].
    destruct (payload_type_eqb (get_type e) ENCRYPTED);
      [destruct H as (st & signed & _ & H); unfold status_eqb in H;
       destruct (status_eq_dec st SUCCESS)|];
      rewrite H in Hgen; injection Hgen as <- <- <-;
      (split; [split; congruence|apply payloads_restored]).
Qed.

(** ** Further properties of [parse_header] *)

(** X14: [parse_header] never touches the payload list or the packet.  When
    it fails, the metadata of the message is what it was; when it succeeds,
    the IKE SA id and both version fields are assigned, so that
    [get_ike_sa_id] succeeds from then on. *)
Theorem parse_header_result this (out : option ike_sa_id_t) :
  let result := parse_header this in
  payloads (snd result) = payloads this
  /\ packet (snd result) = packet this
  /\ (fst result <> SUCCESS -> same_metadata this (snd result))
  /\ (fst result = SUCCESS ->
      major_version (snd result) <> None
      /\ minor_version (snd result) <> None
      /\ exists id, get_ike_sa_id (snd result) out = (SUCCESS, Some id)).
Proof.
  cbn zeta. unfold parse_header.
  destruct (parse_ike_header (reset_context (parser this)))
    as [[st h] cursor].
  destruct (status_eq_dec st SUCCESS) as [->|Hst].
  - cbn [status_eqb negb]. change (negb (status_eqb SUCCESS SUCCESS)) with false.
    cbv iota.
    destruct (status_eq_dec (ike_header_verify h) SUCCESS) as [Hv|Hv].
    + rewrite Hv. change (negb (status_eqb SUCCESS SUCCESS)) with false.
      cbn. repeat split; try discriminate; try contradiction.
      eexists. reflexivity.
    + unfold status_eqb.
      destruct (status_eq_dec (ike_header_verify h) SUCCESS); [contradiction|].
      cbn. repeat split; contradiction.
  - unfold status_eqb. destruct (status_eq_dec st SUCCESS); [contradiction|].
    cbn. repeat split; contradiction.
Qed.

(** ** Further properties of [parse_body] *)

Lemma occurrences_count_occ t l :
  occurrences t l
  = Z.of_nat (count_occ payload_type_eq_dec (map get_type l) t).
Proof.
  unfold occurrences, payload_type_eqb. f_equal.
  induction l as [|p l IH]; [reflexivity|].
  cbn [map filter count_occ].
  destruct (payload_type_eq_dec (get_type p) t); cbn [length]; rewrite IH;
    reflexivity.
Qed.

(** The payload lists that hold one SA, one KE and one Nonce payload and
    nothing else. *)
Lemma ike_sa_init_payloads l :
  Forall (fun p => In (get_type p) [SECURITY_ASSOCIATION; KEY_EXCHANGE; NONCE]) l
  /\ occurrences SECURITY_ASSOCIATION l = 1
  /\ occurrences KEY_EXCHANGE l = 1
  /\ occurrences NONCE l = 1
  <-> Permutation (map get_type l) [SECURITY_ASSOCIATION; KEY_EXCHANGE; NONCE].
Proof.
  rewrite !occurrences_count_occ. split.
  - intros (Hall & Hsa & Hke & Hno).
    apply (Permutation_count_occ payload_type_eq_dec).
    assert (Hout : forall t,
               ~ In t [SECURITY_ASSOCIATION; KEY_EXCHANGE; NONCE] ->
               count_occ payload_type_eq_dec (map get_type l) t = 0%nat).
    { intros t Ht. apply count_occ_not_In. intros Hin.
      apply in_map_iff in Hin as (p & <- & Hp).
      rewrite Forall_forall in Hall. exact (Ht (Hall p Hp)). }
    intros t.
    destruct t;
      match goal with
      | |- _ = ?r => let v := eval vm_compute in r in change r with v
      end; try lia;
      apply Hout; cbn; intuition discriminate.
  - intros HP. split.
    + apply Forall_forall. intros p Hp.
      apply (Permutation_in _ HP). apply in_map, Hp.
    + rewrite (Permutation_count_occ payload_type_eq_dec) in HP.
      rewrite !HP. repeat split; reflexivity.
Qed.

Lemma verify_entries_ike_sa_init l :
  verify_entries supported_ike_sa_init_i_payloads l = SUCCESS <->
  occurrences SECURITY_ASSOCIATION l = 1
  /\ occurrences KEY_EXCHANGE l = 1
  /\ occurrences NONCE l = 1.
Proof.
  assert (Hb : forall e, In e supported_ike_sa_init_i_payloads ->
                         0 <= max_occurence e < 2 ^ size_t_bits - 1).
  { intros e. apply (message_rules_bounds
                       (rule IKE_SA_INIT true false supported_ike_sa_init_i_payloads)).
    now left. }
  pose proof (verify_entries_not_supported _ l Hb) as Hns.
  split.
  - intros Hs.
    assert (Hno : forall e, In e supported_ike_sa_init_i_payloads ->
                            ~ out_of_bounds l e).
    { intros e He Ho.
      assert (H : verify_entries supported_ike_sa_init_i_payloads l = NOT_SUPPORTED)
        by (apply Hns; exists e; split; assumption).
      congruence. }
    unfold out_of_bounds in Hno.
    pose proof (Hno _ (or_introl eq_refl)) as H1.
    pose proof (Hno _ (or_intror (or_introl eq_refl))) as H2.
    pose proof (Hno _ (or_intror (or_intror (or_introl eq_refl)))) as H3.
    cbn in H1, H2, H3. lia.
  - intros (H1 & H2 & H3).
    destruct (verify_entries_status supported_ike_sa_init_i_payloads l)
      as [H|H]; [exact H|].
    apply Hns in H as (e & He & Ho). unfold out_of_bounds in Ho.
    destruct He as [<-|[<-|[<-|[]]]]; cbn in Ho; lia.
Qed.

(** The decrypt loop under a rule of IKE_SA_INIT: it leaves the message as
    it is, goes through when every payload is an SA, KE or Nonce payload,
    and fails otherwise. *)
Lemma decrypt_payloads_loop_ike_sa_init (request : bool) (crypter : crypter_t)
    (signer : signer_t) this (rest : list payload_t) (n : Z) :
  exists status,
    decrypt_payloads_loop
      (rule IKE_SA_INIT request false supported_ike_sa_init_i_payloads)
      crypter signer this rest n false
    = Returns (status, this)
    /\ (Forall (fun p => In (get_type p)
                           [SECURITY_ASSOCIATION; KEY_EXCHANGE; NONCE]) rest ->
        status = verify this)
    /\ (~ Forall (fun p => In (get_type p)
                             [SECURITY_ASSOCIATION; KEY_EXCHANGE; NONCE]) rest ->
        status <> SUCCESS).
Proof.
  revert n. induction rest as [|p rest IH]; intros n.
  - exists (verify this). split; [reflexivity|]. split; [reflexivity|].
    intros H. exfalso. apply H. constructor.
  - cbn [decrypt_payloads_loop].
    destruct (IH (n + 1)) as (st & Hloop & Hyes & Hno).
    destruct (get_type p) eqn:Et;
      try (exists NOT_FOUND; split; [reflexivity|]; split;
           [intros H; inversion H as [|? ? Hin _]; subst; rewrite Et in Hin;
            cbn in Hin; exfalso; intuition discriminate
           |discriminate]).
    + (* SECURITY_ASSOCIATION *)
      exists st. split; [exact Hloop|]. split.
      * intros H. inversion H; subst. auto.
      * intros H. apply Hno. intros Hrest. apply H. constructor;
          [rewrite Et; cbn; auto|exact Hrest].
    + (* KEY_EXCHANGE *)
      exists st. split; [exact Hloop|]. split.
      * intros H. inversion H; subst. auto.
      * intros H. apply Hno. intros Hrest. apply H. constructor;
          [rewrite Et; cbn; auto|exact Hrest].
    + (* NONCE *)
      exists st. split; [exact Hloop|]. split.
      * intros H. inversion H; subst. auto.
      * intros H. apply Hno. intros Hrest. apply H. constructor;
          [rewrite Et; cbn; auto|exact Hrest].
    + (* ENCRYPTED *)
      exists FAILED. split; [reflexivity|]. split; [|discriminate].
      intros H. inversion H as [|? ? Hin _]; subst. rewrite Et in Hin.
      cbn in Hin. exfalso. intuition discriminate.
Qed.

(** X15: an IKE_SA_INIT message, request or response.  [parse_body] always
    returns, with the message as the parsing loop left it, and it returns
    [SUCCESS] exactly when the loop succeeded and the payloads are one SA,
    one KE and one Nonce payload, in any order. *)
Theorem parse_body_ike_sa_init this (crypter : crypter_t) (signer : signer_t) :
  exchange_type this = IKE_SA_INIT ->
  let loop := parse_payloads (S (parser_left (parser this))) this
                (first_payload this) in
  exists status,
    parse_body this crypter signer = Returns (status, snd loop)
    /\ (status = SUCCESS <->
        fst loop = SUCCESS
        /\ Permutation (map get_type (payloads (snd loop)))
             [SECURITY_ASSOCIATION; KEY_EXCHANGE; NONCE]).
Proof.
  intros Hx. cbn zeta. unfold parse_body.
  destruct (parse_payloads _ this (first_payload this)) as [st parsed] eqn:E.
  cbn [fst snd].
  apply parse_payloads_appends in E as [(_ & _ & _ & Hx' & _) _].
  destruct (status_eq_dec st SUCCESS) as [->|Hst].
  - change (negb (status_eqb SUCCESS SUCCESS)) with false. cbv iota.
    unfold decrypt_payloads.
    assert (Hrule : get_message_rule parsed
                    = (SUCCESS,
                       Some (rule IKE_SA_INIT (is_request parsed) false
                               supported_ike_sa_init_i_payloads))).
    { unfold get_message_rule, message_rules. cbn. rewrite <- Hx', Hx.
      destruct (is_request parsed); reflexivity. }
    rewrite Hrule.
    destruct (decrypt_payloads_loop_ike_sa_init (is_request parsed) crypter
                signer parsed (payloads parsed) 1)
      as (status & Hloop & Hyes & Hno).
    exists status. split; [exact Hloop|].
    rewrite <- ike_sa_init_payloads, <- verify_entries_ike_sa_init.
    assert (Hv : verify parsed
                 = verify_entries supported_ike_sa_init_i_payloads
                     (payloads parsed))
      by (unfold verify; rewrite Hrule; reflexivity).
    split.
    + intros Hs. split; [reflexivity|].
      destruct (Forall_dec
                  (fun p => In (get_type p)
                              [SECURITY_ASSOCIATION; KEY_EXCHANGE; NONCE])
                  (fun p => in_dec payload_type_eq_dec (get_type p) _)
                  (payloads parsed)) as [Hall|Hall].
      * split; [exact Hall|]. rewrite <- Hv, <- (Hyes Hall). exact Hs.
      * exfalso. exact (Hno Hall Hs).
    + intros (_ & Hall & Hcount). rewrite (Hyes Hall), Hv. exact Hcount.
  - unfold status_eqb. destruct (status_eq_dec st SUCCESS); [contradiction|].
    cbn [negb]. exists st. split; [reflexivity|]. split; [contradiction|tauto].
Qed.

(** X16: a payload outside of any envelope whose type the rule has no entry
    for: when the decrypt pass of [parse_body] comes to it, [parse_body]
    returns the [NOT_FOUND] of the entry lookup and leaves the parsed
    payloads in the list. *)
Theorem parse_body_unlisted_payload this (crypter : crypter_t)
    (signer : signer_t) (parsed : private_message_t) message_rule
    (before : list payload_t) (p : payload_t) (after : list payload_t) :
  parse_payloads (S (parser_left (parser this))) this (first_payload this)
    = (SUCCESS, parsed) ->
  get_message_rule parsed = (SUCCESS, Some message_rule) ->
  payloads parsed = before ++ p :: after ->
  Forall (passes_unprotected message_rule) before ->
  get_type p <> ENCRYPTED ->
  get_supported_payload_entry message_rule (get_type p) = (NOT_FOUND, None) ->
  parse_body this crypter signer = Returns (NOT_FOUND, parsed).
Proof.
  intros Hparse Hrule Hlist Hbefore Hp Hentry.
  unfold parse_body. rewrite Hparse.
  change (negb (status_eqb SUCCESS SUCCESS)) with false. cbv iota.
  unfold decrypt_payloads. rewrite Hrule, Hlist.
  rewrite decrypt_payloads_loop_passes by exact Hbefore.
  cbn [decrypt_payloads_loop].
  unfold payload_type_eqb at 1.
  destruct (payload_type_eq_dec (get_type p) ENCRYPTED); [contradiction|].
  rewrite Hentry. reflexivity.
Qed.

Lemma remove_last_app {A : Type} (l : list A) (x : A) :
  remove_last (l ++ [x]) = l.
Proof.
  induction l as [|y l IH]; [reflexivity|].
  cbn [app]. destruct l as [|z l]; [reflexivity|].
  change (remove_last (y :: (z :: l) ++ [x]))
    with (y :: remove_last ((z :: l) ++ [x])).
  rewrite IH. reflexivity.
Qed.

(** What [parse_body] does once the decrypt pass has come to the Encryption
    payload. *)
Lemma parse_body_envelope this (crypter : crypter_t) (signer : signer_t)
    (parsed : private_message_t) message_rule (before : list payload_t)
    (e : payload_t) :
  reaches_envelope this parsed message_rule before e ->
  parse_body this crypter signer
  = let kept := with_payloads parsed before in
    let mac :=
      verify_signature (set_transforms e crypter signer) (data (packet parsed)) in
    if negb (status_eqb mac SUCCESS)
    then Returns (mac, kept)
    else
      let (opened, encryption_payload) :=
        decrypt (set_transforms e crypter signer) in
      if negb (status_eqb opened SUCCESS)
      then Returns (opened, kept)
      else
        match inner_payloads encryption_payload with
        | [] => Returns (verify kept, kept)
        | _ :: _ => Undefined UseAfterFree
        end.
Proof.
  intros (Hparse & Hrule & Hc & Hlist & Hbefore & He).
  unfold parse_body. rewrite Hparse.
  change (negb (status_eqb SUCCESS SUCCESS)) with false. cbv iota.
  unfold decrypt_payloads. rewrite Hrule, Hlist.
  rewrite decrypt_payloads_loop_passes by exact Hbefore.
  cbn [decrypt_payloads_loop]. rewrite He, Hc, Hlist.
  change (payload_type_eqb ENCRYPTED ENCRYPTED) with true. cbn [negb].
  cbv iota.
  replace (1 + get_count before =? get_count (before ++ [e])) with true
    by (symmetry; apply Z.eqb_eq; unfold get_count; rewrite length_app;
        cbn [length]; lia).
  cbn [negb]. cbv iota. rewrite remove_last_app. reflexivity.
Qed.

(** X17: the integrity check comes first.  When the decrypt pass has come to
    the Encryption payload and [verify_signature], with the caller's
    transforms bound, returns a status other than [SUCCESS], [parse_body]
    returns that status; nothing is decrypted, and the Encryption payload is
    no longer in the list. *)
Theorem parse_body_signature_failure this (crypter : crypter_t)
    (signer : signer_t) (parsed : private_message_t) message_rule
    (before : list payload_t) (e : payload_t) (mac : status_t) :
  reaches_envelope this parsed message_rule before e ->
  verify_signature (set_transforms e crypter signer) (data (packet parsed))
    = mac ->
  mac <> SUCCESS ->
  parse_body this crypter signer = Returns (mac, with_payloads parsed before).
Proof.
  intros Hreach Hmac Hfail.
  rewrite (parse_body_envelope _ _ _ _ _ _ _ Hreach). cbn zeta.
  rewrite Hmac. unfold status_eqb.
  destruct (status_eq_dec mac SUCCESS); [contradiction|]. reflexivity.
Qed.

(** X18: when the integrity check passes and [decrypt] returns a status
    other than [SUCCESS], [parse_body] returns that status, with the
    Encryption payload no longer in the list. *)
Theorem parse_body_decrypt_failure this (crypter : crypter_t)
    (signer : signer_t) (parsed : private_message_t) message_rule
    (before : list payload_t) (e e' : payload_t) (opened : status_t) :
  reaches_envelope this parsed message_rule before e ->
  verify_signature (set_transforms e crypter signer) (data (packet parsed))
    = SUCCESS ->
  decrypt (set_transforms e crypter signer) = (opened, e') ->
  opened <> SUCCESS ->
  parse_body this crypter signer = Returns (opened, with_payloads parsed before).
Proof.
  intros Hreach Hmac Hopen Hfail.
  rewrite (parse_body_envelope _ _ _ _ _ _ _ Hreach). cbn zeta.
  rewrite Hmac, Hopen. change (negb (status_eqb SUCCESS SUCCESS)) with false.
  cbv iota. unfold status_eqb.
  destruct (status_eq_dec opened SUCCESS); [contradiction|]. reflexivity.
Qed.

(** X19: an Encryption payload that passes the integrity check and decrypts
    to at least one inner payload: [parse_body] destroys the Encryption
    payload and then asks it for its type, so it does not return a status;
    the inner payloads are never checked against the rule. *)
Theorem parse_body_filled_envelope this (crypter : crypter_t)
    (signer : signer_t) (parsed : private_message_t) message_rule
    (before : list payload_t) (e e' : payload_t) :
  reaches_envelope this parsed message_rule before e ->
  verify_signature (set_transforms e crypter signer) (data (packet parsed))
    = SUCCESS ->
  decrypt (set_transforms e crypter signer) = (SUCCESS, e') ->
  inner_payloads e' <> [] ->
  parse_body this crypter signer = Undefined UseAfterFree.
Proof.
  intros Hreach Hmac Hopen Hinner.
  rewrite (parse_body_envelope _ _ _ _ _ _ _ Hreach). cbn zeta.
  rewrite Hmac, Hopen. destruct (inner_payloads e'); [contradiction|].
  reflexivity.
Qed.

(** A chain that is still open: [l] followed by a payload of the type that
    the last link of [l] announces. *)
Lemma linked_extend l (g x g' : payload_t) :
  linked (l ++ [g]) ->
  get_type x = get_type g ->
  get_next_type x = get_type g' ->
  get_next_type g' = NO_PAYLOAD ->
  linked ((l ++ [x]) ++ [g']).
Proof.
  intros H Hx Hn Hg'. induction l as [|a l IH].
  - cbn. apply linked_cons. split; [exact Hn|].
    apply linked_cons. split; [exact Hg'|apply linked_nil].
  - cbn [app] in *. apply linked_cons in H as [Ha Hl].
    apply linked_cons. split; [|apply IH, Hl].
    rewrite Ha. destruct l; cbn; [symmetry; exact Hx|reflexivity].
Qed.

Lemma linked_close l (g : payload_t) :
  linked (l ++ [g]) -> get_type g = NO_PAYLOAD -> linked l.
Proof.
  intros H Hg. induction l as [|a l IH]; [apply linked_nil|].
  cbn [app] in H. apply linked_cons in H as [Ha Hl].
  apply linked_cons. split; [|apply IH, Hl].
  rewrite Ha. destruct l; cbn; [exact Hg|reflexivity].
Qed.

Lemma parse_payloads_open_chain (fuel : nat) this t (this' : private_message_t) :
  (forall q t' x q', parse_payload q t' = (SUCCESS, x, q') -> get_type x = t') ->
  first_payload this = type_at (payloads this ++ [payload_of t []]) 0 ->
  linked (payloads this ++ [payload_of t []]) ->
  parse_payloads fuel this t = (SUCCESS, this') ->
  next_type_chain this'.
Proof.
  intros Hlaw. revert this t.
  induction fuel as [|fuel IH]; intros this t Hfirst Hl H; [discriminate H|].
  cbn [parse_payloads] in H. unfold payload_type_eqb in H.
  destruct (payload_type_eq_dec t NO_PAYLOAD) as [->|Ht].
  - injection H as <-. split.
    + rewrite Hfirst. destruct (payloads this); reflexivity.
    + apply (linked_close _ _ Hl). reflexivity.
  - destruct (parse_payload (parser this) t) as [[st x] cursor] eqn:E.
    destruct (status_eq_dec st SUCCESS) as [->|Hst].
    2:{ unfold status_eqb in H.
        destruct (status_eq_dec st SUCCESS); [contradiction|].
        cbn [negb] in H. injection H as H _. contradiction. }
    change (negb (status_eqb SUCCESS SUCCESS)) with false in H. cbv iota in H.
    destruct (negb (status_eqb (payload_verify x) SUCCESS));
      [discriminate H|].
    apply Hlaw in E.
    apply IH in H; [exact H| |].
    + cbn [first_payload payloads with_payloads with_parser]. rewrite Hfirst.
      unfold insert_last. destruct (payloads this); cbn; congruence.
    + cbn [payloads with_payloads with_parser]. unfold insert_last.
      apply (linked_extend _ _ _ _ Hl); [exact E|reflexivity|reflexivity].
Qed.

(** X20: with a parser that hands back payloads of the type it is asked for,
    a parsing loop that succeeds on a message without payloads leaves a
    chain: [first_payload] is the type of the first payload, every link is
    the type of the successor, and the last link is [NO_PAYLOAD]. *)
Theorem parse_payloads_next_type_chain (fuel : nat) this
    (this' : private_message_t) :
  (forall q t x q', parse_payload q t = (SUCCESS, x, q') -> get_type x = t) ->
  payloads this = [] ->
  parse_payloads fuel this (first_payload this) = (SUCCESS, this') ->
  next_type_chain this'.
Proof.
  intros Hlaw Hempty H.
  apply (parse_payloads_open_chain fuel this (first_payload this) this' Hlaw);
    [| |exact H]; rewrite Hempty; cbn [app].
  - reflexivity.
  - apply linked_cons. split; [reflexivity|apply linked_nil].
Qed.

(** X21: the parsing loop of [parse_body] appends at most as many payloads
    as the parser has octets left, whatever the status. *)
Theorem parse_payloads_bound (fuel : nat) this t :
  (length (payloads (snd (parse_payloads fuel this t)))
   <= length (payloads this) + parser_left (parser this))%nat.
Proof.
  revert this t. induction fuel as [|fuel IH]; intros this t.
  - cbn. lia.
  - cbn [parse_payloads].
    destruct (payload_type_eqb t NO_PAYLOAD); [cbn; lia|].
    destruct (parse_payload (parser this) t) as [[st x] cursor] eqn:E.
    destruct (status_eq_dec st SUCCESS) as [->|Hst].
    + change (negb (status_eqb SUCCESS SUCCESS)) with false. cbv iota.
      destruct (negb (status_eqb (payload_verify x) SUCCESS)); [cbn; lia|].
      apply parse_payload_advances in E.
      etransitivity; [apply IH|].
      cbn [payloads parser with_payloads with_parser]. unfold insert_last.
      rewrite length_app. cbn [length]. lia.
    + unfold status_eqb. destruct (status_eq_dec st SUCCESS); [contradiction|].
      cbn. lia.
Qed.


End Properties.

(** * The properties at work

    Instances of the theorems above on the codec [Plain]. *)

(** An IKE_SA_INIT request with SA, KE and Nonce passes [verify]. *)
Lemma verify_occurrence_bounds_witness :
  let this := Plain.to_send IKE_SA_INIT true
                [SECURITY_ASSOCIATION; KEY_EXCHANGE; NONCE] in
  get_message_rule this
    = (SUCCESS,
       Some (rule IKE_SA_INIT true false supported_ike_sa_init_i_payloads))
  /\ verify this = SUCCESS.
Proof.
  cbn zeta. split; [vm_compute; reflexivity|].
  apply (proj2 (verify_occurrence_bounds _) SUCCESS
           (rule IKE_SA_INIT true false supported_ike_sa_init_i_payloads)).
  - vm_compute; reflexivity.
  - intros e [<-|[<-|[<-|[]]]]; vm_compute; split; discriminate.
Defined.

(** SA, KE, Nonce against Nonce, KE, SA. *)
Lemma verify_permutation_witness :
  let this := Plain.to_send IKE_SA_INIT true
                [SECURITY_ASSOCIATION; KEY_EXCHANGE; NONCE] in
  map get_type (rev (payloads this)) = [NONCE; KEY_EXCHANGE; SECURITY_ASSOCIATION]
  /\ verify (with_payloads this (rev (payloads this))) = verify this.
Proof.
  cbn zeta. split; [vm_compute; reflexivity|].
  apply verify_permutation. apply Permutation_rev.
Defined.

Lemma add_payload_next_type_chain_witness :
  next_type_chain
    (fold_left add_payload
       [ payload_of SECURITY_ASSOCIATION []; payload_of KEY_EXCHANGE [];
         payload_of NONCE [] ]
       (message_create (ext := Plain.codec) : Plain.message)).
Proof.
  apply add_payload_next_type_chain. apply message_create_chain.
Defined.

(** An IKE_AUTH request whose Encryption payload is followed by an SA
    payload. *)
Lemma parse_body_encryption_payload_misplaced_witness :
  let this := Plain.received [x23; x08; x2e; x21; x00] in
  map get_type (payloads (Plain.parsed this)) = [ENCRYPTED; SECURITY_ASSOCIATION]
  /\ parse_body (ext := Plain.codec) this tt tt
     = Returns (FAILED, Plain.parsed this).
Proof.
  cbn zeta. split; [vm_compute; reflexivity|].
  apply (parse_body_encryption_payload_misplaced
           (ext := Plain.codec) _ tt tt _
           (rule IKE_AUTH true true supported_ike_auth_i_payloads)
           []
           {| get_type := ENCRYPTED; get_next_type := SECURITY_ASSOCIATION;
              body := []; transforms := None; inner_payloads := [] |}
           [ payload_of SECURITY_ASSOCIATION [] ]).
  - vm_compute; reflexivity.
  - vm_compute; reflexivity.
  - vm_compute; reflexivity.
  - constructor.
  - reflexivity.
  - left. discriminate.
Defined.

(** An IKE_AUTH request that carries its ID_i payload in the clear. *)
Lemma parse_body_accepts_unprotected_payload_witness :
  let this := Plain.received [x23; x08; x23; x00] in
  map get_type (payloads (Plain.parsed this)) = [ID_INITIATOR]
  /\ get_supported_payload_entry
       (rule IKE_AUTH true true supported_ike_auth_i_payloads) ID_INITIATOR
     = (SUCCESS, Some (entry ID_INITIATOR 1 1 true))
  /\ parse_body (ext := Plain.codec) this tt tt
     = Returns (SUCCESS, Plain.parsed this).
Proof.
  cbn zeta. split; [vm_compute; reflexivity|].
  split; [vm_compute; reflexivity|].
  apply (parse_body_accepts_unprotected_payload
           (ext := Plain.codec) _ tt tt _
           (rule IKE_AUTH true true supported_ike_auth_i_payloads)
           [] (payload_of ID_INITIATOR []) []
           (entry ID_INITIATOR 1 1 true)).
  - vm_compute; reflexivity.
  - vm_compute; reflexivity.
  - vm_compute; reflexivity.
  - constructor.
  - discriminate.
  - vm_compute; reflexivity.
  - reflexivity.
Defined.



(** A CREATE_CHILD_SA message without endpoints: [generate] returns
    [INVALID_STATE], not [NOT_FOUND]. *)
Lemma generate_unruled_invalid_state :
  let this := Plain.to_send CREATE_CHILD_SA true [] in
  ~ In (exchange_type this, is_request this) ruled
  /\ generate (ext := Plain.codec) this tt tt
     = Returns (INVALID_STATE, this, None)
  /\ generate (ext := Plain.codec) this tt tt
     <> Returns (NOT_FOUND, this, None).
Proof.
  cbn zeta. split; [vm_compute; intuition discriminate|].
  split; [vm_compute; reflexivity|vm_compute; discriminate].
Defined.

(** An INFORMATIONAL request with both endpoints. *)
Lemma message_rules_coverage_witness :
  let this : Plain.message :=
    set_destination
      (set_source (Plain.to_send INFORMATIONAL true []) (Some tt)) (Some tt) in
  ~ In (exchange_type this, is_request this) ruled
  /\ verify this = NOT_FOUND
  /\ generate (ext := Plain.codec) this tt tt = Returns (NOT_FOUND, this, None).
Proof.
  cbn zeta.
  assert (H : ~ In (INFORMATIONAL, true) ruled)
    by (vm_compute; intuition discriminate).
  split; [exact H|].
  destruct (proj2 (message_rules_coverage (ext := Plain.codec))
              (set_destination
                 (set_source (Plain.to_send INFORMATIONAL true []) (Some tt))
                 (Some tt)) tt tt H) as (_ & Hv & Hg & _).
  split; [exact Hv|exact Hg].
Defined.

(** ** Further instances *)

(** The entry of AUTH in the rule of an IKE_AUTH request. *)
Lemma get_supported_payload_entry_exact_witness :
  In (rule IKE_AUTH true true supported_ike_auth_i_payloads) message_rules
  /\ get_supported_payload_entry
       (rule IKE_AUTH true true supported_ike_auth_i_payloads) AUTHENTICATION
     = (SUCCESS, Some (entry AUTHENTICATION 1 1 true)).
Proof.
  assert (H : In (rule IKE_AUTH true true supported_ike_auth_i_payloads)
                message_rules) by (cbn; auto).
  split; [exact H|].
  apply (proj1 (get_supported_payload_entry_exact _ AUTHENTICATION H)).
  split; [cbn; auto 10|reflexivity].
Defined.

(** The rule of an IKE_AUTH response. *)
Lemma get_message_rule_exact_witness :
  get_message_rule (Plain.to_send IKE_AUTH false [])
  = (SUCCESS, Some (rule IKE_AUTH false true supported_ike_auth_r_payloads)).
Proof.
  apply get_message_rule_exact.
  split; [cbn; auto|]. split; vm_compute; reflexivity.
Defined.

(** An IKE_AUTH request without payloads. *)
Lemma verify_empty_witness :
  verify (Plain.to_send IKE_AUTH true []) = NOT_SUPPORTED.
Proof.
  apply verify_empty; [cbn; auto|reflexivity].
Defined.

(** An ID_i payload between the SA and the KE payload of an IKE_SA_INIT
    request. *)
Lemma verify_ignores_unlisted_witness :
  let this := Plain.to_send IKE_SA_INIT true [] in
  let sa := [ payload_of SECURITY_ASSOCIATION [] ] in
  let ke_nonce := [ payload_of KEY_EXCHANGE []; payload_of NONCE [] ] in
  verify (with_payloads this (sa ++ payload_of ID_INITIATOR [] :: ke_nonce))
  = verify (with_payloads this (sa ++ ke_nonce)).
Proof.
  cbn zeta.
  apply (verify_ignores_unlisted _ SUCCESS
           (rule IKE_SA_INIT true false supported_ike_sa_init_i_payloads));
    vm_compute; reflexivity.
Defined.

(** An IKE_AUTH request with KE, ID_i and AUTH: the KE payload stays. *)
Lemma encrypt_payloads_cut_witness :
  let this := Plain.to_send IKE_AUTH true
                [KEY_EXCHANGE; ID_INITIATOR; AUTHENTICATION] in
  let message_rule := rule IKE_AUTH true true supported_ike_auth_i_payloads in
  exists kept dropped,
    payloads this = kept ++ dropped
    /\ encrypt_payloads (ext := Plain.codec) this tt tt
       = (SUCCESS, with_payloads this kept)
    /\ Forall (fun p => ~ listed_encrypted message_rule p) kept
    /\ match dropped with
       | [] => True
       | p :: _ => listed_encrypted message_rule p
       end.
Proof.
  cbn zeta. apply encrypt_payloads_cut; vm_compute; reflexivity.
Defined.

(** An IKE_SA_INIT request with SA, KE and Nonce, ready to send. *)
Lemma generate_relinks_witness :
  let this := Plain.ready (Plain.to_send IKE_SA_INIT true
                             [SECURITY_ASSOCIATION; KEY_EXCHANGE; NONCE]) in
  generate (ext := Plain.codec) this tt tt
    = Returns (SUCCESS, Plain.generated this,
               Some (packet (Plain.generated this)))
  /\ linked (payloads (Plain.generated this)).
Proof.
  cbn zeta.
  assert (H : generate (ext := Plain.codec)
                (Plain.ready (Plain.to_send IKE_SA_INIT true
                                [SECURITY_ASSOCIATION; KEY_EXCHANGE; NONCE]))
                tt tt
              = Returns (SUCCESS,
                         Plain.generated
                           (Plain.ready (Plain.to_send IKE_SA_INIT true
                              [SECURITY_ASSOCIATION; KEY_EXCHANGE; NONCE])),
                         Some (packet (Plain.generated
                           (Plain.ready (Plain.to_send IKE_SA_INIT true
                              [SECURITY_ASSOCIATION; KEY_EXCHANGE; NONCE]))))))
    by (vm_compute; reflexivity).
  split; [exact H|].
  exact (proj1 (generate_relinks _ tt tt _ _ H)).
Defined.

Lemma generate_emits_witness :
  let this := Plain.ready (Plain.to_send IKE_SA_INIT true
                             [SECURITY_ASSOCIATION; KEY_EXCHANGE; NONCE]) in
  generate (ext := Plain.codec) this tt tt
    = Returns (SUCCESS, Plain.generated this,
               Some (packet (Plain.generated this)))
  /\ source (packet (Plain.generated this)) = source (packet this)
  /\ data (packet (Plain.generated this)) = [x22; x08; x21; x22; x28; x00].
Proof.
  cbn zeta.
  assert (H : generate (ext := Plain.codec)
                (Plain.ready (Plain.to_send IKE_SA_INIT true
                                [SECURITY_ASSOCIATION; KEY_EXCHANGE; NONCE]))
                tt tt
              = Returns (SUCCESS,
                         Plain.generated
                           (Plain.ready (Plain.to_send IKE_SA_INIT true
                              [SECURITY_ASSOCIATION; KEY_EXCHANGE; NONCE])),
                         Some (packet (Plain.generated
                           (Plain.ready (Plain.to_send IKE_SA_INIT true
                              [SECURITY_ASSOCIATION; KEY_EXCHANGE; NONCE]))))))
    by (vm_compute; reflexivity).
  split; [exact H|].
  destruct (generate_emits _ tt tt _ _ H) as (_ & Hs & _ & _).
  split; [exact Hs|vm_compute; reflexivity].
Defined.

(** An IKE_SA_INIT request with both endpoints and an IKE SA id, and
    without payloads. *)
Lemma generate_undefined_witness :
  let this := Plain.ready (Plain.to_send IKE_SA_INIT true []) in
  ike_sa_id this <> None
  /\ payloads (snd (encrypt_payloads (ext := Plain.codec) this tt tt)) = []
  /\ generate (ext := Plain.codec) this tt tt = Undefined UseAfterFree.
Proof.
  cbn zeta. split; [vm_compute; discriminate|].
  split; [vm_compute; reflexivity|].
  apply generate_undefined.
  split; [vm_compute; discriminate|]. split; [vm_compute; discriminate|].
  split; [vm_compute; discriminate|]. split; [vm_compute; reflexivity|].
  right. split; [vm_compute; discriminate|].
  split; [vm_compute; reflexivity|reflexivity].
Defined.

Lemma generate_returns_witness :
  let this := Plain.ready (Plain.to_send IKE_SA_INIT true
                             [SECURITY_ASSOCIATION; KEY_EXCHANGE; NONCE]) in
  generate (ext := Plain.codec) this tt tt
    = Returns (SUCCESS, Plain.generated this,
               Some (packet (Plain.generated this)))
  /\ with_data (with_payloads (Plain.generated this) (payloads this))
       (data (packet this)) = this.
Proof.
  cbn zeta.
  assert (H : generate (ext := Plain.codec)
                (Plain.ready (Plain.to_send IKE_SA_INIT true
                                [SECURITY_ASSOCIATION; KEY_EXCHANGE; NONCE]))
                tt tt
              = Returns (SUCCESS,
                         Plain.generated
                           (Plain.ready (Plain.to_send IKE_SA_INIT true
                              [SECURITY_ASSOCIATION; KEY_EXCHANGE; NONCE])),
                         Some (packet (Plain.generated
                           (Plain.ready (Plain.to_send IKE_SA_INIT true
                              [SECURITY_ASSOCIATION; KEY_EXCHANGE; NONCE]))))))
    by (vm_compute; reflexivity).
  split; [exact H|].
  exact (proj2 (generate_returns _ tt tt _ _ _ H)).
Defined.

(** A new message: its exchange type is undefined. *)
Lemma generate_tested_preconditions_witness :
  let this : Plain.message := message_create (ext := Plain.codec) in
  generate (ext := Plain.codec) this tt tt = Returns (INVALID_STATE, this, None).
Proof.
  cbn zeta. apply generate_tested_preconditions. left. reflexivity.
Defined.

(** A received IKE_AUTH request. *)
Lemma parse_header_result_witness :
  let this : Plain.message :=
    message_create_from_packet (ext := Plain.codec)
      (Some {| source := None; destination := None;
               data := [x23; x08; x23; x00] |}) in
  fst (parse_header (ext := Plain.codec) this) = SUCCESS
  /\ exists id,
       get_ike_sa_id (snd (parse_header (ext := Plain.codec) this)) None
       = (SUCCESS, Some id).
Proof.
  cbn zeta.
  assert (H : fst (parse_header (ext := Plain.codec)
                     (message_create_from_packet (ext := Plain.codec)
                        (Some {| source := None; destination := None;
                                 data := [x23; x08; x23; x00] |})
                      : Plain.message))
              = SUCCESS) by (vm_compute; reflexivity).
  split; [exact H|].
  destruct (parse_header_result (ext := Plain.codec)
              (message_create_from_packet (ext := Plain.codec)
                 (Some {| source := None; destination := None;
                          data := [x23; x08; x23; x00] |})
               : Plain.message) None)
    as (_ & _ & _ & Hs).
  exact (proj2 (proj2 (Hs H))).
Defined.

(** A received IKE_SA_INIT request with SA, KE and Nonce. *)
Lemma parse_body_ike_sa_init_witness :
  let this := Plain.received [x22; x08; x21; x22; x28; x00] in
  exchange_type this = IKE_SA_INIT
  /\ exists status,
       parse_body (ext := Plain.codec) this tt tt
       = Returns (status, Plain.parsed this)
       /\ (status = SUCCESS <->
           fst (parse_payloads (ext := Plain.codec)
                  (S (parser_left (collaborators := Plain.codec) (parser this)))
                  this (first_payload this)) = SUCCESS
           /\ Permutation (map get_type (payloads (Plain.parsed this)))
                [SECURITY_ASSOCIATION; KEY_EXCHANGE; NONCE]).
Proof.
  cbn zeta. split; [vm_compute; reflexivity|].
  apply (parse_body_ike_sa_init (ext := Plain.codec)
           (Plain.received [x22; x08; x21; x22; x28; x00]) tt tt).
  vm_compute; reflexivity.
Defined.

(** A received IKE_SA_INIT request whose only payload is an AUTH payload. *)
Lemma parse_body_unlisted_payload_witness :
  let this := Plain.received [x22; x08; x27; x00] in
  map get_type (payloads (Plain.parsed this)) = [AUTHENTICATION]
  /\ parse_body (ext := Plain.codec) this tt tt
     = Returns (NOT_FOUND, Plain.parsed this).
Proof.
  cbn zeta. split; [vm_compute; reflexivity|].
  apply (parse_body_unlisted_payload
           (ext := Plain.codec) _ tt tt _
           (rule IKE_SA_INIT true false supported_ike_sa_init_i_payloads)
           [] (payload_of AUTHENTICATION []) []).
  - vm_compute; reflexivity.
  - vm_compute; reflexivity.
  - vm_compute; reflexivity.
  - constructor.
  - discriminate.
  - vm_compute; reflexivity.
Defined.

(** A received IKE_AUTH request whose only payload is an Encryption payload
    that fails its integrity check. *)
Lemma parse_body_signature_failure_witness :
  let this := Plain.received [x23; x08; x2e; x00] in
  map get_type (payloads (Plain.parsed this)) = [ENCRYPTED]
  /\ parse_body (ext := Plain.envelope INVALID_STATE SUCCESS []) this tt tt
     = Returns (INVALID_STATE, with_payloads (Plain.parsed this) []).
Proof.
  cbn zeta. split; [vm_compute; reflexivity|].
  apply (parse_body_signature_failure
           (ext := Plain.envelope INVALID_STATE SUCCESS []) _ tt tt _
           (rule IKE_AUTH true true supported_ike_auth_i_payloads)
           [] (payload_of ENCRYPTED [])).
  - repeat split; try (vm_compute; reflexivity). constructor.
  - reflexivity.
  - discriminate.
Defined.

(** The same request with an Encryption payload that passes its integrity
    check and does not decrypt. *)
Lemma parse_body_decrypt_failure_witness :
  let this := Plain.received [x23; x08; x2e; x00] in
  map get_type (payloads (Plain.parsed this)) = [ENCRYPTED]
  /\ parse_body (ext := Plain.envelope SUCCESS PARSE_ERROR []) this tt tt
     = Returns (PARSE_ERROR, with_payloads (Plain.parsed this) []).
Proof.
  cbn zeta. split; [vm_compute; reflexivity|].
  apply (parse_body_decrypt_failure
           (ext := Plain.envelope SUCCESS PARSE_ERROR []) _ tt tt _
           (rule IKE_AUTH true true supported_ike_auth_i_payloads)
           [] (payload_of ENCRYPTED [])
           {| get_type := ENCRYPTED; get_next_type := NO_PAYLOAD; body := [];
              transforms := Some (tt, tt); inner_payloads := [] |}).
  - repeat split; try (vm_compute; reflexivity). constructor.
  - reflexivity.
  - reflexivity.
  - discriminate.
Defined.

(** The same request with an Encryption payload that holds an ID_i
    payload. *)
Lemma parse_body_filled_envelope_witness :
  let this := Plain.received [x23; x08; x2e; x00] in
  map get_type (payloads (Plain.parsed this)) = [ENCRYPTED]
  /\ parse_body
       (ext := Plain.envelope SUCCESS SUCCESS [payload_of ID_INITIATOR []])
       this tt tt
     = Undefined UseAfterFree.
Proof.
  cbn zeta. split; [vm_compute; reflexivity|].
  apply (parse_body_filled_envelope
           (ext := Plain.envelope SUCCESS SUCCESS [payload_of ID_INITIATOR []])
           _ tt tt (Plain.parsed (Plain.received [x23; x08; x2e; x00]))
           (rule IKE_AUTH true true supported_ike_auth_i_payloads)
           [] (payload_of ENCRYPTED [])
           {| get_type := ENCRYPTED; get_next_type := NO_PAYLOAD; body := [];
              transforms := Some (tt, tt);
              inner_payloads := [payload_of ID_INITIATOR []] |}).
  - repeat split; try (vm_compute; reflexivity). constructor.
  - reflexivity.
  - reflexivity.
  - discriminate.
Defined.

(** The received IKE_SA_INIT request with SA, KE and Nonce. *)
Lemma parse_payloads_next_type_chain_witness :
  let this := Plain.received [x22; x08; x21; x22; x28; x00] in
  map get_type (payloads (Plain.parsed this))
    = [SECURITY_ASSOCIATION; KEY_EXCHANGE; NONCE]
  /\ next_type_chain (Plain.parsed this).
Proof.
  cbn zeta. split; [vm_compute; reflexivity|].
  apply (parse_payloads_next_type_chain (ext := Plain.codec) 4
           (Plain.received [x22; x08; x21; x22; x28; x00])).
  - intros q t x q'. cbn. unfold Plain.read_payload.
    destruct (snd q) as [|n rest]; [discriminate|].
    destruct (Plain.payload_type_of_code n); [|discriminate].
    intros H. injection H as <- _. reflexivity.
  - vm_compute; reflexivity.
  - vm_compute; reflexivity.
Defined.
